(** * backend/documents.py: documents, nodes and the retrieval tree

    A shallow embedding of [Document.create], [Node] and [Tree] and the
    properties of their operations.

    Python objects are mutable and shared by reference: a [Node] is held by
    its parent's [child_nodes] list and, a second time, by the tree's
    [leaf_nodes] deque.  Nodes therefore live in a store ([heap]) and are
    named by their address; every operation that mutates a node takes the
    store and returns the new one.

    The module [settings] and the tokenizer ([tiktoken]) are not part of
    the source: [PAGE_CONTENT_KEYS], [MAX_CHUNK_SIZE] and
    [encoding_for_model] are parameters of the sections below, and a tree
    carries the encoder that its constructor has resolved. *)

From Stdlib Require Import ZArith String Ascii List Lia.
From stdpp Require Import base option list gmap strings.

Local Open Scope string_scope.
Local Open Scope list_scope.
Local Open Scope Z_scope.

(** ** Python strings *)

Module PyStr.

(** [len(s)] *)
Definition len (s : string) : Z := Z.of_nat (String.length s).

(** [s[:stop]]: the first [stop] characters, or all of [s] when it is
    shorter; a negative [stop] counts from the end. *)
Definition slice_to (s : string) (stop : Z) : string :=
  if stop <? 0
  then substring 0 (Z.to_nat (len s + stop)) s
  else substring 0 (Z.to_nat stop) s.

(** [sep.join(parts)] with [sep = ''] *)
Definition join (parts : list string) : string :=
  fold_right String.append "" parts.

(** Iterating over a [str] yields its characters as one-character
    strings. *)
Fixpoint chars (s : string) : list string :=
  match s with
  | EmptyString => []
  | String c s' => String c EmptyString :: chars s'
  end.

(** Truth value of a [str]: empty is false. *)
Definition truthy (s : string) : bool :=
  match s with EmptyString => false | String _ _ => true end.

End PyStr.

(** ** Document *)

(** [Metadata] is a [TypedDict]: at run time a plain [dict] from field
    names to strings, read with [.get]. *)
Abbreviation Metadata := (gmap string string).

Record Document := mkDocument {
  metadata : Metadata;
  page_content : string
}.

Inductive exn :=
  | AssertionError (msg : list string)
  | ValidationError.

(** The fields that the class [Metadata] declares, all of them required,
    and the values that it allows for the field [type]. *)
Definition Metadata_fields : list string :=
  ["content"; "summary"; "title"; "type"; "keywords"; "source"; "query"].

Definition type_values : list string := ["web_page"; "essay"; "wiki"].

Definition has_fields (md : Metadata) : bool :=
  forallb (fun k => bool_decide (is_Some (md !! k))) Metadata_fields.

Definition type_allowed (md : Metadata) : bool :=
  match md !! "type" with
  | Some ty => bool_decide (ty ∈ type_values)
  | None => false
  end.

(** The validation of the field [metadata: Metadata] by the constructor
    of the model: a dictionary that lacks a field of [Metadata], or whose
    [type] is none of the allowed values, is refused; the keys that are
    no fields of [Metadata] are dropped. *)
Definition validate_Metadata (md : Metadata) : option Metadata :=
  if has_fields md && type_allowed md
  then Some (filter (fun kv : string * string => kv.1 ∈ Metadata_fields) md)
  else None.

(** [cls(metadata=metadata, page_content=page_content)].  The field
    [page_content] is declared [Any] and is stored as it is given. *)
Definition Document_init (md : Metadata) (page_content : string)
    : exn + Document :=
  match validate_Metadata md with
  | Some md' => inr (mkDocument md' page_content)
  | None => inl ValidationError
  end.

(** Truth value of the optional argument [page_content=None]. *)
Definition arg_truthy (page_content : option string) : bool :=
  match page_content with
  | None => false
  | Some s => PyStr.truthy s
  end.

Section Create.

Variable PAGE_CONTENT_KEYS : list string.
Variable MAX_CHUNK_SIZE : Z.

(** The loop
    [for k in settings.PAGE_CONTENT_KEYS:
       if _v := metadata.get(k): page_content = _v; break]
    run on the keys still to visit. *)
Fixpoint derive (keys : list string) (md : Metadata)
    (page_content : option string) : option string :=
  match keys with
  | [] => page_content
  | k :: keys' =>
      match md !! k with
      | Some _v => if PyStr.truthy _v then Some _v
                   else derive keys' md page_content
      | None => derive keys' md page_content
      end
  end.

(** [if page_content and len(page_content) > settings.MAX_CHUNK_SIZE:
       page_content = page_content[:settings.MAX_CHUNK_SIZE] + '...'] *)
Definition truncate (page_content : option string) : option string :=
  match page_content with
  | Some s =>
      if PyStr.truthy s && (MAX_CHUNK_SIZE <? PyStr.len s)
      then Some (PyStr.slice_to s MAX_CHUNK_SIZE +:+ "...")
      else page_content
  | None => None
  end.

(** [if not page_content: for k in settings.PAGE_CONTENT_KEYS: ...] *)
Definition select_content (md : Metadata) (page_content : option string)
    : option string :=
  if negb (arg_truthy page_content)
  then derive PAGE_CONTENT_KEYS md page_content
  else page_content.

(** [Document.create(metadata, page_content=None)] *)
Definition create (md : Metadata) (page_content : option string)
    : exn + Document :=
  let page_content := select_content md page_content in
  let page_content := truncate page_content in
  if arg_truthy page_content
  then match page_content with
       | Some s => Document_init md s
       | None => inl (AssertionError ("Can not find" :: PAGE_CONTENT_KEYS))
       end
  else inl (AssertionError ("Can not find" :: PAGE_CONTENT_KEYS)).

End Create.

(** ** Node *)

(** [Query = str] *)
Abbreviation Query := string.

(** [NodeDataType = Union[Document, Query]] *)
Inductive NodeDataType :=
  | DocData (d : Document)
  | QueryData (q : Query).

(** [isinstance(data, Document)] *)
Definition isinstance_Document (data : NodeDataType) : bool :=
  match data with DocData _ => true | QueryData _ => false end.

(** A node is named by its address in the store. *)
Abbreviation ref := nat.

Record Node := mkNode {
  data : NodeDataType;
  parent : option ref;
  child_nodes : list ref;
  deleted : bool
}.

Abbreviation heap := (list Node).

Definition with_child_nodes (nd : Node) (cs : list ref) : Node :=
  mkNode (data nd) (parent nd) cs (deleted nd).

Definition with_deleted (nd : Node) (b : bool) : Node :=
  mkNode (data nd) (parent nd) (child_nodes nd) b.

(** The property [node_type]. *)
Definition node_type (self : Node) : string :=
  if isinstance_Document (data self) then "Document" else "Query".

(** [Node(data=data, parent=self)]: the fields left out take their
    defaults, an empty list of its own and [False]. *)
Definition Node_init (data : NodeDataType) (parent : ref) : Node :=
  mkNode data (Some parent) [] false.

(** The loop of [add_child_nodes]: every new node is allocated at the end
    of the store and appended to the local list [nodes]. *)
Definition alloc_nodes (self : ref) (dataset : list NodeDataType)
    (h : heap) : heap * list ref :=
  fold_left
    (fun (st : heap * list ref) data =>
       (st.1 ++ [Node_init data self], st.2 ++ [length st.1]))
    dataset (h, []).

(** [self.add_child_nodes(dataset)].  The receiver is a node of the store
    before the call; its list of children is read, and extended, after the
    loop. *)
Definition add_child_nodes (h : heap) (self : ref)
    (dataset : list NodeDataType) : option heap :=
  _ ← h !! self;
  let '(h1, nodes) := alloc_nodes self dataset h in
  nd ← h1 !! self;
  Some (<[self := with_child_nodes nd (child_nodes nd ++ nodes)]> h1).

(** [self.all_nodes()].  The recursion follows [child_nodes] through the
    store; [fuel] bounds its depth, and [None] is a missing node or the
    bound reached. *)
Fixpoint all_nodes (fuel : nat) (h : heap) (self : ref)
    : option (list ref) :=
  match fuel with
  | O => None
  | S fuel' =>
      nd ← h !! self;
      fold_left
        (fun (acc : option (list ref)) node =>
           nodes ← acc;
           sub ← all_nodes fuel' h node;
           Some (nodes ++ sub))
        (child_nodes nd) (Some [self])
  end.

(** The condition of the comprehension in [all_documents]:
    [node.node_type == 'Document' and node.deleted is False]. *)
Definition live_document (nd : Node) : bool :=
  String.eqb (node_type nd) "Document" && negb (deleted nd).

(** [[node.data for node in nodes if ...]] *)
Fixpoint select_documents (h : heap) (nodes : list ref)
    : list NodeDataType :=
  match nodes with
  | [] => []
  | node :: nodes' =>
      match h !! node with
      | Some nd =>
          if live_document nd
          then data nd :: select_documents h nodes'
          else select_documents h nodes'
      | None => select_documents h nodes'
      end
  end.

(** [self.all_documents()] *)
Definition all_documents (fuel : nat) (h : heap) (self : ref)
    : option (list NodeDataType) :=
  nodes ← all_nodes fuel h self;
  Some (select_documents h nodes).

(** [self.delete()] *)
Definition delete (h : heap) (self : ref) : option heap :=
  nd ← h !! self;
  Some (<[self := with_deleted nd true]> h).

(** ** collections.deque *)

Module Deque.

(** The left end of the deque is the head of the list. *)
Definition appendleft {A} (x : A) (d : list A) : list A := x :: d.
Definition append {A} (x : A) (d : list A) : list A := d ++ [x].

(** [d.extendleft(iterable)] appends the elements to the left one after
    the other. *)
Definition extendleft {A} (d : list A) (iterable : list A) : list A :=
  fold_left (fun d x => appendleft x d) iterable d.

(** [d.extend(iterable)] *)
Definition extend {A} (d : list A) (iterable : list A) : list A :=
  fold_left (fun d x => append x d) iterable d.

End Deque.

(** ** Tree *)

Abbreviation Encoding := (string -> list nat).

Record Tree := mkTree {
  root : ref;
  tokens : Z;
  leaf_nodes : list ref;
  doc_node_num : Z;
  embedding_model : string;
  _encoding : Encoding
}.

(** The argument [dataset] of [Tree.add_nodes]: one item, or a list of
    items. *)
Inductive dataset_arg :=
  | Item (d : NodeDataType)
  | Items (l : list NodeDataType).

(** [isinstance(dataset, Sequence)]: a list is a Sequence, and so is a
    [str] (hence a [Query]); a [Document] is not. *)
Definition isinstance_Sequence (dataset : dataset_arg) : bool :=
  match dataset with
  | Items _ => true
  | Item (QueryData _) => true
  | Item (DocData _) => false
  end.

(** [for data in dataset], for a dataset that is a Sequence: the elements
    of a list, the characters of a [str].  A single [Document] is wrapped
    before any loop runs over the dataset, so its case is never used. *)
Definition iterate (dataset : dataset_arg) : list NodeDataType :=
  match dataset with
  | Items l => l
  | Item (QueryData q) => QueryData <$> PyStr.chars q
  | Item (DocData _) => []
  end.

(** [if not isinstance(dataset, Sequence): dataset = [dataset]] *)
Definition normalize (dataset : dataset_arg) : list NodeDataType :=
  if negb (isinstance_Sequence dataset)
  then match dataset with Item d => [d] | Items l => l end
  else iterate dataset.

(** Truth value of a list: empty is false. *)
Definition list_truthy {A} (l : list A) : bool :=
  match l with [] => false | _ :: _ => true end.

(** [[data for data in dataset if isinstance(data, Document)]] *)
Fixpoint documents_of (dataset : list NodeDataType) : list Document :=
  match dataset with
  | [] => []
  | DocData d :: rest => d :: documents_of rest
  | QueryData _ :: rest => documents_of rest
  end.

Section TreeOps.

(** [tiktoken.encoding_for_model] *)
Variable encoding_for_model : string -> Encoding.

(** [Tree(root=root)], with the defaults of the fields and
    [model_post_init]. *)
Definition Tree_init (root : ref) (embedding_model : string) : Tree :=
  mkTree root 0 [] 0 embedding_model (encoding_for_model embedding_model).

(** The default model name. *)
Definition default_model : string := "gpt-3.5-turbo".

End TreeOps.

(** [self.add_nodes(parent, dataset)] *)
Definition add_nodes (h : heap) (self : Tree) (parent : ref)
    (dataset : dataset_arg) : option (heap * Tree) :=
  let dataset := normalize dataset in
  h' ← add_child_nodes h parent dataset;
  pn ← h' !! parent;
  let documents := documents_of dataset in
  if list_truthy documents
  then
    let leaf_nodes' := Deque.extendleft (leaf_nodes self) (child_nodes pn) in
    let doc_node_num' := doc_node_num self + Z.of_nat (length documents) in
    let doc_texts := PyStr.join (page_content <$> documents) in
    let tokens' :=
      tokens self + Z.of_nat (length (_encoding self doc_texts)) in
    Some (h', mkTree (root self) tokens' leaf_nodes' doc_node_num'
                     (embedding_model self) (_encoding self))
  else
    let leaf_nodes' := Deque.extend (leaf_nodes self) (child_nodes pn) in
    Some (h', mkTree (root self) (tokens self) leaf_nodes'
                     (doc_node_num self) (embedding_model self)
                     (_encoding self)).

(** [Tree.all_nodes] and [Tree.all_documents] *)
Definition Tree_all_nodes (fuel : nat) (h : heap) (self : Tree) :=
  all_nodes fuel h (root self).

Definition Tree_all_documents (fuel : nat) (h : heap) (self : Tree) :=
  all_documents fuel h (root self).

(** ** Sequences of calls on one tree *)

Inductive call :=
  | Call_add_nodes (parent : ref) (dataset : dataset_arg)
  | Call_delete (node : ref).

Definition exec (st : heap * Tree) (c : call) : option (heap * Tree) :=
  match c with
  | Call_add_nodes parent dataset => add_nodes st.1 st.2 parent dataset
  | Call_delete node => h' ← delete st.1 node; Some (h', st.2)
  end.

Fixpoint exec_all (st : heap * Tree) (cs : list call)
    : option (heap * Tree) :=
  match cs with
  | [] => Some st
  | c :: cs' => st' ← exec st c; exec_all st' cs'
  end.

(** ** Notions used to state the properties *)

(** The number of Document items in an argument of [add_nodes]. *)
Definition count_documents (dataset : dataset_arg) : nat :=
  match dataset with
  | Item d => if isinstance_Document d then 1 else 0
  | Items l => length (filter (fun d => isinstance_Document d = true) l)
  end.

(** The Document items passed by a sequence of calls, all calls together. *)
Fixpoint documents_passed (cs : list call) : Z :=
  match cs with
  | [] => 0
  | Call_add_nodes _ dataset :: cs' =>
      Z.of_nat (count_documents dataset) + documents_passed cs'
  | Call_delete _ :: cs' => documents_passed cs'
  end.

Definition is_delete (c : call) : Prop :=
  match c with Call_delete _ => True | Call_add_nodes _ _ => False end.

(** A metadata that the constructor accepts: every field of [Metadata] is
    there, and [type] has one of the allowed values. *)
Definition valid_Metadata (md : Metadata) : Prop :=
  (forall k, k ∈ Metadata_fields -> is_Some (md !! k)) /\
  exists ty, md !! "type" = Some ty /\ ty ∈ type_values.

(** The candidate field values of a metadata in the order of the keys,
    and the first non-empty one. *)
Definition candidate_values (keys : list string) (md : Metadata)
    : list string :=
  omap (fun k => md !! k) keys.

Definition first_nonempty (keys : list string) (md : Metadata)
    : option string :=
  head (filter (fun v => v <> "") (candidate_values keys md)).

(** The call [n.all_nodes()] returns [nodes]. *)
Definition all_nodes_returns (h : heap) (n : ref) (nodes : list ref) : Prop :=
  exists fuel, all_nodes fuel h n = Some nodes.

(** The call [n.all_documents()] returns [docs]. *)
Definition all_documents_returns (h : heap) (n : ref)
    (docs : list NodeDataType) : Prop :=
  exists fuel, all_documents fuel h n = Some docs.

(** The stores that the constructor of [Node] and [add_child_nodes] build:
    the children of a node are nodes of the store, allocated after it. *)
Definition heap_wf (h : heap) : Prop :=
  forall n nd, h !! n = Some nd ->
    Forall (fun c => (n < c < length h)%nat) (child_nodes nd).

(** The tree under the node [n] has at most [d] levels. *)
Fixpoint depth_le (d : nat) (h : heap) (n : ref) : Prop :=
  match d with
  | O => False
  | S d' =>
      exists nd, h !! n = Some nd /\ Forall (depth_le d' h) (child_nodes nd)
  end.

(** The node [n] is the root of a tree of finite depth. *)
Definition finite_tree (h : heap) (n : ref) : Prop :=
  exists d, depth_le d h n.

(** The node at address [n] holds a Document and is not deleted. *)
Definition visible_document (h : heap) (n : ref) : bool :=
  match h !! n with
  | Some (mkNode (DocData _) _ _ false) => true
  | _ => false
  end.

(** The node at address [n] is a live document. *)
Definition live_document_at (h : heap) (n : ref) : bool :=
  match h !! n with
  | Some nd => live_document nd
  | None => false
  end.

(** The node at address [n] holds [d]. *)
Definition data_at (h : heap) (n : ref) (d : NodeDataType) : Prop :=
  exists nd, h !! n = Some nd /\ data nd = d.

(** A tokenizer for the examples: one token per character. *)
Definition char_tokens (model : string) : Encoding :=
  fun text => (fun _ => 0%nat) <$> PyStr.chars text.

(** The store after [Node(data=d)]: a single node, without parent, without
    children and not deleted. *)
Definition fresh_root (d : NodeDataType) : heap := [mkNode d None [] false].

(** A store with a single node, a root that holds a query. *)
Definition root_only : heap := [mkNode (QueryData "root") None [] false].

(** A document and a tree over [root_only] for the examples. *)
Definition sample_doc : Document :=
  mkDocument {["title" := "t"]} "hello".

Definition sample_tree : Tree := Tree_init char_tokens 0 default_model.

(** The store and the tree after [add_nodes(R, [sample_doc, "q1"])] on
    them. *)
Definition root_with_two : heap :=
  [mkNode (QueryData "root") None [1; 2]%nat false;
   Node_init (DocData sample_doc) 0;
   Node_init (QueryData "q1") 0].

Definition tree_after_first : Tree :=
  mkTree 0 5 [2; 1]%nat 1 default_model (char_tokens default_model).

(** A store of depth two: the root holds the nodes 1 and 2, and the
    node 1 holds the node 3. *)
Definition sample_heap : heap :=
  [mkNode (QueryData "root") None [1; 2]%nat false;
   mkNode (DocData sample_doc) (Some 0%nat) [3%nat] false;
   Node_init (QueryData "q1") 0;
   Node_init (DocData (mkDocument ∅ "world")) 1].

(** The number of times that a node stands in a deque. *)
Definition occurrences (c : ref) (d : list ref) : nat :=
  count_occ Nat.eq_dec d c.

Implicit Types (h : heap) (nd : Node) (n self parent : ref).
Implicit Types (items : list NodeDataType) (t : Tree).

(** The addresses of [k] nodes allocated in a store [h]. *)
Abbreviation fresh h k := (seq (length h) k).

(** The store after [self.add_child_nodes(items)]. *)
Definition heap_after_add h self nd items : heap :=
  <[self := with_child_nodes nd (child_nodes nd ++ fresh h (length items))]>
    (h ++ ((fun d => Node_init d self) <$> items)).

(** The receiver of the call after it: its children are the former ones
    followed by the new ones. *)
Definition children_after h nd items : list ref :=
  child_nodes nd ++ fresh h (length items).

(** The nodes of [h] are nodes of [h'], and their lists of children have
    only grown, at the end. *)
Definition children_grow h h' : Prop :=
  forall n nd, h !! n = Some nd ->
    exists nd', h' !! n = Some nd' /\ child_nodes nd `prefix_of` child_nodes nd'.

(** No occurrence of a node has left the deque. *)
Definition leaf_nodes_grow t t' : Prop :=
  forall c, (occurrences c (leaf_nodes t) <= occurrences c (leaf_nodes t'))%nat.

(** Keys, a metadata and the document that [create] makes of them with
    a maximum of three characters. *)
Definition sample_keys : list string := ["content"; "title"].

Definition sample_md : Metadata :=
  list_to_map
    [("content", ""); ("summary", "a summary"); ("title", "abcdef");
     ("type", "wiki"); ("keywords", ""); ("source", ""); ("query", "q")].

Definition cut_doc : Document := mkDocument sample_md "abc...".

(** The node [c] is a child of the node [p]. *)
Definition child_of (h : heap) (p c : ref) : Prop :=
  exists nd, h !! p = Some nd /\ c ∈ child_nodes nd.

(** The contents of the Documents of a list of items, written one after
    the other in the order of the list; the queries have no part in it. *)
Fixpoint document_texts (l : list NodeDataType) : string :=
  match l with
  | [] => ""
  | DocData d :: rest => page_content d +:+ document_texts rest
  | QueryData _ :: rest => document_texts rest
  end.

(** The same for an argument of [add_nodes]. *)
Definition dataset_texts (dataset : dataset_arg) : string :=
  match dataset with
  | Item (DocData d) => page_content d
  | Item (QueryData _) => ""
  | Items l => document_texts l
  end.

(** A second document for the examples. *)
Definition second_doc : Document := mkDocument ∅ "world".

(** The tokens that one call adds: for a call of [add_nodes] that passes
    at least one Document, the count that the encoder gives for the
    contents of its Documents put together; nothing for another call. *)
Definition tokens_of_call (enc : Encoding) (c : call) : Z :=
  match c with
  | Call_add_nodes _ dataset =>
      match count_documents dataset with
      | O => 0
      | S _ => Z.of_nat (length (enc (dataset_texts dataset)))
      end
  | Call_delete _ => 0
  end.

Fixpoint tokens_passed (enc : Encoding) (cs : list call) : Z :=
  match cs with
  | [] => 0
  | c :: cs' => tokens_of_call enc c + tokens_passed enc cs'
  end.

(** The node [nd'] is the node [nd] later on: same data, same parent, the
    same children and maybe more after them, and still deleted if it
    was. *)
Definition node_kept (nd nd' : Node) : Prop :=
  data nd' = data nd /\
  parent nd' = parent nd /\
  child_nodes nd `prefix_of` child_nodes nd' /\
  (deleted nd = true -> deleted nd' = true).

(** A sequence of calls that passes two Documents in one dataset. *)
Definition two_document_calls : list call :=
  [Call_add_nodes 0
     (Items [DocData sample_doc; QueryData "q1"; DocData second_doc]);
   Call_delete 1;
   Call_add_nodes 2 (Item (DocData second_doc))].

(** A sequence of calls for the examples. *)
Definition sample_calls : list call :=
  [Call_add_nodes 0 (Items [DocData sample_doc; QueryData "q1"]);
   Call_delete 1;
   Call_add_nodes 2 (Item (DocData sample_doc))].

(** The field [parent] and the lists of children agree: a node with a
    parent is among the children of that parent, a child has the node as
    its parent, and no node is twice a child of the same node. *)
Definition linked (h : heap) : Prop :=
  forall n nd, h !! n = Some nd ->
    (forall p, parent nd = Some p -> child_of h p n) /\
    (forall c, c ∈ child_nodes nd ->
       exists cn, h !! c = Some cn /\ parent cn = Some n) /\
    NoDup (child_nodes nd).

(** The nodes added under [x] by a call that adds [new] under [p]. *)
Definition new_under (p : ref) (new : list ref) (x : ref) : list ref :=
  if decide (x = p) then new else [].

(** The node at address [n] holds a Document. *)
Definition document_at (h : heap) (n : ref) : bool :=
  match h !! n with
  | Some nd => isinstance_Document (data nd)
  | None => false
  end.

(** The node at address [n] holds a Document and is deleted. *)
Definition deleted_document (h : heap) (n : ref) : bool :=
  match h !! n with
  | Some (mkNode (DocData _) _ _ true) => true
  | _ => false
  end.

(** The nodes of the store that hold a Document and are deleted. *)
Definition deleted_documents (h : heap) : list ref :=
  filter (fun n => deleted_document h n = true) (seq 0 (length h)).

(** The nodes of the store that hold a Document. *)
Definition document_nodes (h : heap) : list ref :=
  filter (fun n => document_at h n = true) (seq 0 (length h)).

(** The items of an argument of [add_nodes], as the loop over it meets
    them: the elements of a list, one for a single Document, the
    characters of a single query. *)
Definition count_items (dataset : dataset_arg) : nat :=
  match dataset with
  | Item (DocData _) => 1
  | Item (QueryData q) => String.length q
  | Items l => length l
  end.

(** The items of a sequence of calls, all calls together. *)
Fixpoint items_passed (cs : list call) : nat :=
  match cs with
  | [] => 0
  | Call_add_nodes _ dataset :: cs' => count_items dataset + items_passed cs'
  | Call_delete _ :: cs' => items_passed cs'
  end.

(** A sequence of calls without a deletion. *)
Definition adding_calls : list call :=
  [Call_add_nodes 0
     (Items [DocData sample_doc; QueryData "q1"; DocData second_doc]);
   Call_add_nodes 2 (Item (DocData second_doc));
   Call_add_nodes 1 (Item (QueryData "ab"))].

(** * Properties *)

(** ** Strings and deques *)

Module PyStrFacts.
Import PyStr.

Lemma length_prefix (n : nat) (s : string) :
  String.length (substring 0 n s) = Nat.min n (String.length s).
Proof.
  revert s; induction n as [|n IH]; intros [|c s]; simpl; auto.
Qed.

Lemma prefix_all (n : nat) (s : string) :
  (String.length s <= n)%nat -> substring 0 n s = s.
Proof.
  revert s; induction n as [|n IH]; intros [|c s]; simpl; intros H;
    try reflexivity; try lia.
  f_equal. apply IH. lia.
Qed.

Lemma prefix_split (n : nat) (s : string) :
  exists rest, s = substring 0 n s +:+ rest.
Proof.
  revert s; induction n as [|n IH]; intros [|c s]; simpl.
  - by exists "".
  - by exists (String c s).
  - by exists "".
  - destruct (IH s) as [rest Hrest]. exists rest.
    change (String c s = String c (substring 0 n s +:+ rest)).
    by rewrite <- Hrest.
Qed.

Lemma append_cons (c : ascii) (s1 s2 : string) :
  String c s1 +:+ s2 = String c (s1 +:+ s2).
Proof. reflexivity. Qed.

Lemma length_append (s1 s2 : string) :
  String.length (s1 +:+ s2) = (String.length s1 + String.length s2)%nat.
Proof.
  induction s1 as [|c s1 IH]; [reflexivity|].
  rewrite append_cons. simpl. by rewrite IH.
Qed.

Lemma append_empty_r (s : string) : s +:+ "" = s.
Proof.
  induction s as [|c s IH]; [reflexivity|]. by rewrite append_cons, IH.
Qed.

Lemma truthy_append_r (s1 s2 : string) :
  truthy s2 = true -> truthy (s1 +:+ s2) = true.
Proof. destruct s1; [auto|]. by rewrite append_cons. Qed.

Lemma truthy_false (s : string) : truthy s = false <-> s = "".
Proof. destruct s; simpl; split; congruence. Qed.

Lemma join_singleton (s : string) : join [s] = s.
Proof. apply append_empty_r. Qed.

End PyStrFacts.

Module DequeFacts.
Import Deque.

Lemma extendleft_rev {A} (d xs : list A) : extendleft d xs = rev xs ++ d.
Proof.
  revert d; induction xs as [|x xs IH]; intros d; [reflexivity|].
  unfold extendleft in *; simpl. rewrite IH. unfold appendleft.
  by rewrite <- app_assoc.
Qed.

Lemma extend_app {A} (d xs : list A) : extend d xs = d ++ xs.
Proof.
  revert d; induction xs as [|x xs IH]; intros d.
  - by rewrite app_nil_r.
  - unfold extend in *; simpl. rewrite IH. unfold append.
    by rewrite <- app_assoc.
Qed.

End DequeFacts.

(** ** Document.create *)

Lemma Metadata_restrict_lookup (md : Metadata) (k : string) :
  filter (fun kv : string * string => kv.1 ∈ Metadata_fields) md !! k
  = if decide (k ∈ Metadata_fields) then md !! k else None.
Proof.
  destruct (decide (k ∈ Metadata_fields)) as [Hk|Hk].
  - destruct (md !! k) as [v|] eqn:Hv.
    + by apply map_lookup_filter_Some.
    + apply map_lookup_filter_None. by left.
  - apply map_lookup_filter_None. right. by intros v _.
Qed.

Lemma has_fields_true (md : Metadata) :
  (forall k, k ∈ Metadata_fields -> is_Some (md !! k)) ->
  has_fields md = true.
Proof.
  intros Hall. apply forallb_forall. intros k Hk.
  apply bool_decide_eq_true, Hall. by apply list_elem_of_In.
Qed.

(** The constructor accepts exactly the valid metadata, and keeps of them
    the fields of [Metadata]. *)
Lemma validate_Metadata_Some (md md' : Metadata) :
  validate_Metadata md = Some md' <->
  valid_Metadata md /\
  forall k, md' !! k = if decide (k ∈ Metadata_fields) then md !! k else None.
Proof.
  unfold validate_Metadata, valid_Metadata. split.
  - intros H. destruct (has_fields md) eqn:Hf; [|discriminate].
    unfold type_allowed in H.
    destruct (md !! "type") as [ty|] eqn:Hty; [|discriminate]. simpl in H.
    destruct (bool_decide (ty ∈ type_values)) eqn:Hb; [|discriminate].
    injection H as <-. split; [split|].
    + intros k Hk. unfold has_fields in Hf. rewrite forallb_forall in Hf.
      apply list_elem_of_In in Hk. apply Hf in Hk.
      by apply bool_decide_eq_true in Hk.
    + exists ty. split; [done|]. by apply bool_decide_eq_true in Hb.
    + apply Metadata_restrict_lookup.
  - intros [[Hall (ty & Hty & Hin)] Hlook].
    rewrite (has_fields_true md Hall). unfold type_allowed. rewrite Hty.
    simpl. rewrite bool_decide_true by done. f_equal.
    apply map_eq. intros k. by rewrite Hlook, Metadata_restrict_lookup.
Qed.

Lemma validate_Metadata_None (md : Metadata) :
  validate_Metadata md = None <-> ~ valid_Metadata md.
Proof.
  split.
  - intros Hnone [Hall (ty & Hty & Hin)].
    unfold validate_Metadata in Hnone.
    rewrite (has_fields_true md Hall) in Hnone.
    unfold type_allowed in Hnone. rewrite Hty in Hnone. simpl in Hnone.
    by rewrite bool_decide_true in Hnone by done.
  - intros Hnot. destruct (validate_Metadata md) as [md'|] eqn:Hv; [|done].
    exfalso. apply Hnot. by apply (validate_Metadata_Some md md').
Qed.

Lemma Document_init_valid (md : Metadata) (c : string) :
  valid_Metadata md ->
  exists md', validate_Metadata md = Some md' /\
              Document_init md c = inr (mkDocument md' c).
Proof.
  intros Hvalid. unfold Document_init.
  destruct (validate_Metadata md) as [md'|] eqn:Hv; [by exists md'|].
  by apply validate_Metadata_None in Hv.
Qed.

Lemma Document_init_invalid (md : Metadata) (c : string) :
  ~ valid_Metadata md -> Document_init md c = inl ValidationError.
Proof.
  intros Hnot. unfold Document_init.
  by rewrite (proj2 (validate_Metadata_None md) Hnot).
Qed.

Lemma sample_md_valid : valid_Metadata sample_md.
Proof. by apply (validate_Metadata_Some sample_md sample_md). Qed.

Section CreateFacts.

Variable PAGE_CONTENT_KEYS : list string.
Variable MAX_CHUNK_SIZE : Z.

(** The loop over the keys stops at the first non-empty candidate value,
    and leaves [page_content] as it was when there is none. *)
Lemma derive_first_nonempty (keys : list string) (md : Metadata)
    (pc : option string) :
  derive keys md pc =
    match first_nonempty keys md with
    | Some v => Some v
    | None => pc
    end.
Proof.
  unfold first_nonempty, candidate_values.
  induction keys as [|k keys IH]; [reflexivity|].
  simpl. destruct (md !! k) as [v|] eqn:Hk; simpl; [|exact IH].
  rewrite filter_cons. destruct v as [|c v]; simpl.
  - exact IH.
  - reflexivity.
Qed.

Lemma first_nonempty_truthy (keys : list string) (md : Metadata)
    (v : string) :
  first_nonempty keys md = Some v -> PyStr.truthy v = true.
Proof.
  unfold first_nonempty. intros H.
  apply head_Some_elem_of, list_elem_of_filter in H as [H _].
  destruct v; [congruence | reflexivity].
Qed.

(** Cutting never empties a content, nor fills an empty one. *)
Lemma truncate_truthy (pc : option string) :
  arg_truthy (truncate MAX_CHUNK_SIZE pc) = arg_truthy pc.
Proof.
  destruct pc as [s|]; [|reflexivity]. unfold truncate.
  destruct (PyStr.truthy s && (MAX_CHUNK_SIZE <? PyStr.len s)) eqn:Hc;
    [|reflexivity].
  apply andb_prop in Hc as [Hs _]. simpl. rewrite Hs.
  by apply PyStrFacts.truthy_append_r.
Qed.

Lemma truncate_is_Some (s : string) :
  exists c, truncate MAX_CHUNK_SIZE (Some s) = Some c.
Proof.
  unfold truncate.
  destruct (PyStr.truthy s && (MAX_CHUNK_SIZE <? PyStr.len s)); eauto.
Qed.

Lemma truncate_cases (s c : string) :
  PyStr.truthy s = true ->
  truncate MAX_CHUNK_SIZE (Some s) = Some c ->
  (PyStr.len s <= MAX_CHUNK_SIZE -> c = s) /\
  (MAX_CHUNK_SIZE < PyStr.len s ->
   c = PyStr.slice_to s MAX_CHUNK_SIZE +:+ "...").
Proof.
  intros Hs Hcut. unfold truncate in Hcut. rewrite Hs in Hcut.
  cbn [andb] in Hcut.
  destruct (MAX_CHUNK_SIZE <? PyStr.len s) eqn:Hlt; injection Hcut as <-.
  - apply Z.ltb_lt in Hlt. split; [lia | done].
  - apply Z.ltb_ge in Hlt. split; [done | lia].
Qed.

(** [create] fails on the assertion exactly when the selected content is
    empty, and otherwise hands the selected content, cut, to the
    constructor. *)
Lemma create_select (md : Metadata) (pc : option string) :
  match select_content PAGE_CONTENT_KEYS md pc with
  | Some s =>
      if PyStr.truthy s
      then exists c, truncate MAX_CHUNK_SIZE (Some s) = Some c /\
             create PAGE_CONTENT_KEYS MAX_CHUNK_SIZE md pc
               = Document_init md c
      else create PAGE_CONTENT_KEYS MAX_CHUNK_SIZE md pc =
             inl (AssertionError ("Can not find" :: PAGE_CONTENT_KEYS))
  | None =>
      create PAGE_CONTENT_KEYS MAX_CHUNK_SIZE md pc =
        inl (AssertionError ("Can not find" :: PAGE_CONTENT_KEYS))
  end.
Proof.
  unfold create.
  destruct (select_content PAGE_CONTENT_KEYS md pc) as [s|] eqn:Hsel;
    [|reflexivity].
  rewrite truncate_truthy. cbn [arg_truthy].
  destruct (PyStr.truthy s) eqn:Hs; [|reflexivity].
  destruct (truncate_is_Some s) as [c Hc]. rewrite Hc. eauto.
Qed.

Lemma select_content_explicit (md : Metadata) (s : string) :
  s <> "" -> select_content PAGE_CONTENT_KEYS md (Some s) = Some s.
Proof. destruct s; [congruence | reflexivity]. Qed.

Lemma select_content_derived (md : Metadata) (pc : option string) :
  arg_truthy pc = false ->
  select_content PAGE_CONTENT_KEYS md pc =
    match first_nonempty PAGE_CONTENT_KEYS md with
    | Some v => Some v
    | None => pc
    end.
Proof.
  intros Hpc. unfold select_content. rewrite Hpc. simpl.
  apply derive_first_nonempty.
Qed.

(** With a content [s], given or derived, the constructor gets [s], cut
    when it is longer than the maximum. *)
Lemma create_of_content (md : Metadata) (pc : option string) (s : string) :
  (pc = Some s /\ s <> "") \/
  (arg_truthy pc = false /\
   first_nonempty PAGE_CONTENT_KEYS md = Some s) ->
  exists c,
    create PAGE_CONTENT_KEYS MAX_CHUNK_SIZE md pc = Document_init md c /\
    (PyStr.len s <= MAX_CHUNK_SIZE -> c = s) /\
    (MAX_CHUNK_SIZE < PyStr.len s ->
     c = PyStr.slice_to s MAX_CHUNK_SIZE +:+ "...").
Proof.
  intros Hsrc.
  assert (Hsel : select_content PAGE_CONTENT_KEYS md pc = Some s
                 /\ PyStr.truthy s = true).
  { destruct Hsrc as [[-> Hs] | [Hpc Hv]].
    - split; [by apply select_content_explicit|].
      destruct s; [done | reflexivity].
    - rewrite (select_content_derived md pc Hpc), Hv.
      split; [reflexivity|]. by eapply first_nonempty_truthy. }
  destruct Hsel as [Hsel Ht].
  pose proof (create_select md pc) as Hc. rewrite Hsel, Ht in Hc.
  destruct Hc as (c & Hcut & Hc). exists c. split; [exact Hc|].
  by apply truncate_cases.
Qed.

Lemma create_no_content (md : Metadata) (pc : option string) :
  arg_truthy pc = false ->
  first_nonempty PAGE_CONTENT_KEYS md = None ->
  create PAGE_CONTENT_KEYS MAX_CHUNK_SIZE md pc
  = inl (AssertionError ("Can not find" :: PAGE_CONTENT_KEYS)).
Proof.
  intros Hpc Hv. pose proof (create_select md pc) as Hc.
  rewrite (select_content_derived md pc Hpc), Hv in Hc.
  destruct pc as [s|]; [|exact Hc].
  simpl in Hpc. by rewrite Hpc in Hc.
Qed.

(** The content that [create] works with, if any. *)
Lemma create_content_cases (md : Metadata) (pc : option string) :
  (arg_truthy pc = false /\ first_nonempty PAGE_CONTENT_KEYS md = None) \/
  exists s,
    (pc = Some s /\ s <> "") \/
    (arg_truthy pc = false /\
     first_nonempty PAGE_CONTENT_KEYS md = Some s).
Proof.
  destruct (arg_truthy pc) eqn:Hpc.
  - right. destruct pc as [s|]; [|discriminate]. exists s. left.
    split; [reflexivity|]. intros ->. discriminate.
  - destruct (first_nonempty PAGE_CONTENT_KEYS md) as [v|] eqn:Hv.
    + right. exists v. by right.
    + by left.
Qed.

(** C8, as amended.  [create] raises exactly when the argument
    [page_content] is absent or empty and no candidate field of
    [PAGE_CONTENT_KEYS] holds a non-empty value (the assertion fails), or
    the metadata is not valid for the constructor (a field of [Metadata]
    is missing, or [type] has none of its values).  With a valid
    metadata: when the argument is absent or empty, the content is the
    first non-empty candidate value in the order of the keys, cut when it
    is longer than the maximum; a non-empty argument is the content, cut
    in the same way, whatever the keys and the candidate fields are. *)
Theorem create_content_rule (md : Metadata) (pc : option string) :
  ((exists e, create PAGE_CONTENT_KEYS MAX_CHUNK_SIZE md pc = inl e) <->
     (arg_truthy pc = false /\
      first_nonempty PAGE_CONTENT_KEYS md = None) \/
     ~ valid_Metadata md)
  /\ (arg_truthy pc = false ->
      first_nonempty PAGE_CONTENT_KEYS md = None ->
      create PAGE_CONTENT_KEYS MAX_CHUNK_SIZE md pc
      = inl (AssertionError ("Can not find" :: PAGE_CONTENT_KEYS)))
  /\ (forall v,
        arg_truthy pc = false ->
        first_nonempty PAGE_CONTENT_KEYS md = Some v ->
        valid_Metadata md ->
        exists d,
          create PAGE_CONTENT_KEYS MAX_CHUNK_SIZE md pc = inr d /\
          (PyStr.len v <= MAX_CHUNK_SIZE -> page_content d = v) /\
          (MAX_CHUNK_SIZE < PyStr.len v ->
           page_content d = PyStr.slice_to v MAX_CHUNK_SIZE +:+ "..."))
  /\ (forall s,
        pc = Some s -> s <> "" ->
        valid_Metadata md ->
        exists d,
          create PAGE_CONTENT_KEYS MAX_CHUNK_SIZE md pc = inr d /\
          (PyStr.len s <= MAX_CHUNK_SIZE -> page_content d = s) /\
          (MAX_CHUNK_SIZE < PyStr.len s ->
           page_content d = PyStr.slice_to s MAX_CHUNK_SIZE +:+ "...") /\
          forall keys' md1,
            valid_Metadata md1 ->
            exists d1,
              create keys' MAX_CHUNK_SIZE md1 pc = inr d1 /\
              page_content d1 = page_content d).
Proof.
  split; [|split; [apply create_no_content|split]].
  - split.
    + intros [e He].
      destruct (create_content_cases md pc) as [Hnone | [s Hsrc]];
        [by left|].
      right. intros Hvalid.
      destruct (create_of_content md pc s Hsrc) as (c & Hc & _).
      destruct (Document_init_valid md c Hvalid) as (md' & _ & Hd).
      congruence.
    + intros [[Hpc Hv] | Hnot].
      * rewrite (create_no_content md pc Hpc Hv). eauto.
      * destruct (create_content_cases md pc) as [[Hpc Hv] | [s Hsrc]].
        -- rewrite (create_no_content md pc Hpc Hv). eauto.
        -- destruct (create_of_content md pc s Hsrc) as (c & Hc & _).
           rewrite Hc, (Document_init_invalid md c Hnot). eauto.
  - intros v Hpc Hv Hvalid.
    destruct (create_of_content md pc v (or_intror (conj Hpc Hv)))
      as (c & Hc & Hshort & Hlong).
    destruct (Document_init_valid md c Hvalid) as (md' & _ & Hd).
    exists (mkDocument md' c). split; [congruence|]. by split.
  - intros s -> Hs Hvalid.
    destruct (create_of_content md (Some s) s (or_introl (conj eq_refl Hs)))
      as (c & Hc & Hshort & Hlong).
    destruct (Document_init_valid md c Hvalid) as (md' & _ & Hd).
    exists (mkDocument md' c). split; [congruence|].
    split; [exact Hshort|]. split; [exact Hlong|].
    intros keys' md1 Hvalid1.
    assert (Ht : PyStr.truthy s = true) by (destruct s; [done | reflexivity]).
    destruct (Document_init_valid md1 c Hvalid1) as (md1' & _ & Hd1).
    exists (mkDocument md1' c). split; [|reflexivity].
    assert (Hcut : truncate MAX_CHUNK_SIZE (Some s) = Some c).
    { destruct (truncate_is_Some s) as [c' Hc'].
      destruct (truncate_cases s c' Ht Hc') as [Hs' Hl'].
      destruct (Z_le_gt_dec (PyStr.len s) MAX_CHUNK_SIZE) as [Hle|Hgt].
      - by rewrite Hc', (Hs' Hle), (Hshort Hle).
      - rewrite Hc', Hl', Hlong by lia. done. }
    unfold create, select_content.
    cbn [arg_truthy]. rewrite Ht. cbn [negb].
    rewrite truncate_truthy. cbn [arg_truthy]. rewrite Ht.
    by rewrite Hcut.
Qed.

(** C9.  With a maximum that is a length and a metadata that the
    constructor accepts: a content longer than [MAX_CHUNK_SIZE], given as
    the argument or derived from the metadata, is replaced by its first
    [MAX_CHUNK_SIZE] characters followed by ["..."], [MAX_CHUNK_SIZE + 3]
    characters in all; a content of at most [MAX_CHUNK_SIZE] characters
    is kept as it is. *)
Theorem create_truncation (md : Metadata) (pc : option string)
    (s : string) :
  0 <= MAX_CHUNK_SIZE ->
  (pc = Some s /\ s <> "") \/
  (arg_truthy pc = false /\
   first_nonempty PAGE_CONTENT_KEYS md = Some s) ->
  valid_Metadata md ->
  (MAX_CHUNK_SIZE < PyStr.len s ->
     exists kept rest d,
       s = kept +:+ rest /\
       PyStr.len kept = MAX_CHUNK_SIZE /\
       PyStr.len (kept +:+ "...") = MAX_CHUNK_SIZE + 3 /\
       create PAGE_CONTENT_KEYS MAX_CHUNK_SIZE md pc = inr d /\
       page_content d = kept +:+ "...")
  /\ (PyStr.len s <= MAX_CHUNK_SIZE ->
       exists d,
         create PAGE_CONTENT_KEYS MAX_CHUNK_SIZE md pc = inr d /\
         page_content d = s).
Proof.
  intros Hmax Hsrc Hvalid.
  destruct (create_of_content md pc s Hsrc) as (c & Hc & Hshort & Hlong).
  destruct (Document_init_valid md c Hvalid) as (md' & _ & Hd).
  rewrite Hd in Hc. split; intros Hlen.
  - rewrite (Hlong Hlen) in Hc. unfold PyStr.slice_to in *.
    assert (Hneg : (MAX_CHUNK_SIZE <? 0) = false) by (apply Z.ltb_ge; lia).
    rewrite Hneg in *.
    destruct (PyStrFacts.prefix_split (Z.to_nat MAX_CHUNK_SIZE) s)
      as [rest Hrest].
    exists (substring 0 (Z.to_nat MAX_CHUNK_SIZE) s), rest,
      (mkDocument md' (substring 0 (Z.to_nat MAX_CHUNK_SIZE) s +:+ "...")).
    assert (Hkept : PyStr.len (substring 0 (Z.to_nat MAX_CHUNK_SIZE) s)
                    = MAX_CHUNK_SIZE).
    { unfold PyStr.len in *. rewrite PyStrFacts.length_prefix. lia. }
    split; [exact Hrest|]. split; [exact Hkept|].
    split; [|split; [exact Hc | reflexivity]].
    unfold PyStr.len in *. rewrite PyStrFacts.length_append. simpl. lia.
  - rewrite (Hshort Hlen) in Hc. eexists. split; [exact Hc | reflexivity].
Qed.

End CreateFacts.

(** [create_truncation] on a six-character argument and a maximum of
    three. *)
Lemma create_truncation_witness :
  (3 < PyStr.len "abcdef" ->
     exists kept rest d,
       "abcdef" = kept +:+ rest /\
       PyStr.len kept = 3 /\
       PyStr.len (kept +:+ "...") = 3 + 3 /\
       create ["content"; "title"] 3 sample_md (Some "abcdef") = inr d /\
       page_content d = kept +:+ "...")
  /\ (PyStr.len "abcdef" <= 3 ->
       exists d,
         create ["content"; "title"] 3 sample_md (Some "abcdef") = inr d /\
         page_content d = "abcdef").
Proof.
  apply (create_truncation ["content"; "title"] 3 sample_md
           (Some "abcdef") "abcdef").
  - lia.
  - left. split; [reflexivity | discriminate].
  - exact sample_md_valid.
Defined.

Example create_cuts_long_content :
  create ["content"; "title"] 3 sample_md None
    = inr (mkDocument sample_md "abc...").
Proof. reflexivity. Qed.

Example create_keeps_short_content :
  create ["content"; "title"] 6 sample_md None
    = inr (mkDocument sample_md "abcdef").
Proof. reflexivity. Qed.

(** The constructor drops a key that is no field of [Metadata], and
    refuses a metadata that lacks a field. *)
Example create_drops_other_keys :
  create ["content"; "title"] 6 (<["extra" := "x"]> sample_md) None
    = inr (mkDocument sample_md "abcdef").
Proof. reflexivity. Qed.

Example create_refuses_incomplete_metadata :
  create ["content"; "title"] 6 {["title" := "abcdef"]} None
    = inl ValidationError.
Proof. reflexivity. Qed.

(** A negative maximum is no length: the slice then drops characters from
    the end. *)
Example create_negative_maximum :
  create ["content"] (-2) sample_md (Some "abcdef")
    = inr (mkDocument sample_md "abcd...").
Proof. reflexivity. Qed.

(** C8, as stated, fails in both directions.  An empty argument
    [page_content=""] is supplied, yet [if not page_content] sends it to
    the derivation: with no candidate value the assertion fails, and with
    a candidate value the document takes that value and not the
    argument.  And with a non-empty candidate value, [create] still
    raises when the metadata lacks a field of [Metadata]. *)
Lemma create_empty_argument_counterexample :
  (Some "" : option string) <> None
  /\ create ["content"; "title"] 100 ∅ (Some "")
       = inl (AssertionError ["Can not find"; "content"; "title"])
  /\ create ["content"; "title"] 100 sample_md (Some "")
       = inr (mkDocument sample_md "abcdef")
  /\ first_nonempty ["content"; "title"] {["title" := "t"]} = Some "t"
  /\ create ["content"; "title"] 100 {["title" := "t"]} None
       = inl ValidationError.
Proof. split; [discriminate | repeat split; reflexivity]. Qed.

(** ** Node.add_child_nodes *)

Lemma alloc_nodes_acc self items h (acc : list ref) :
  fold_left
    (fun (st : heap * list ref) data =>
       (st.1 ++ [Node_init data self], st.2 ++ [length st.1]))
    items (h, acc)
  = (h ++ ((fun d => Node_init d self) <$> items),
     acc ++ fresh h (length items)).
Proof.
  revert h acc; induction items as [|d items IH]; intros h acc; simpl.
  - by rewrite !app_nil_r.
  - rewrite IH. simpl. rewrite length_app. simpl.
    rewrite <- !app_assoc. simpl.
    by replace (length h + 1)%nat with (S (length h)) by lia.
Qed.

Lemma alloc_nodes_eq self items h :
  alloc_nodes self items h
  = (h ++ ((fun d => Node_init d self) <$> items), fresh h (length items)).
Proof. unfold alloc_nodes. by rewrite alloc_nodes_acc. Qed.

Lemma add_child_nodes_eq h self nd items :
  h !! self = Some nd ->
  add_child_nodes h self items = Some (heap_after_add h self nd items).
Proof.
  intros Hself. unfold add_child_nodes. rewrite Hself, alloc_nodes_eq.
  simpl. rewrite (lookup_app_l_Some _ _ _ _ Hself). reflexivity.
Qed.

Lemma add_child_nodes_is_Some h self items :
  is_Some (add_child_nodes h self items) <-> is_Some (h !! self).
Proof.
  split.
  - intros [h' Hadd]. unfold add_child_nodes in Hadd.
    destruct (h !! self); [eauto | discriminate].
  - intros [nd Hs]. rewrite (add_child_nodes_eq _ _ _ _ Hs). eauto.
Qed.

Lemma heap_after_add_length h self nd items :
  length (heap_after_add h self nd items) = (length h + length items)%nat.
Proof.
  unfold heap_after_add. by rewrite length_insert, length_app, length_fmap.
Qed.

Lemma heap_after_add_self h self nd items :
  h !! self = Some nd ->
  heap_after_add h self nd items !! self
  = Some (with_child_nodes nd (child_nodes nd ++ fresh h (length items))).
Proof.
  intros Hself. unfold heap_after_add.
  apply list_lookup_insert_eq. rewrite length_app.
  apply lookup_lt_Some in Hself. lia.
Qed.

Lemma heap_after_add_old h self nd items n :
  n <> self -> (n < length h)%nat ->
  heap_after_add h self nd items !! n = h !! n.
Proof.
  intros Hne Hlt. unfold heap_after_add.
  rewrite list_lookup_insert_ne by done. by apply lookup_app_l.
Qed.

Lemma heap_after_add_new h self nd items (i : nat) d :
  h !! self = Some nd ->
  items !! i = Some d ->
  heap_after_add h self nd items !! (length h + i)%nat
  = Some (Node_init d self).
Proof.
  intros Hself Hd. unfold heap_after_add.
  apply lookup_lt_Some in Hself.
  rewrite list_lookup_insert_ne by lia.
  rewrite lookup_app_r by lia.
  replace (length h + i - length h)%nat with i by lia.
  by rewrite list_lookup_fmap, Hd.
Qed.

(** The new children hold the items, in the order of the dataset. *)
Lemma heap_after_add_data h self nd items :
  h !! self = Some nd ->
  Forall2 (data_at (heap_after_add h self nd items))
          (fresh h (length items)) items.
Proof.
  intros Hself. apply Forall2_same_length_lookup. split.
  - by rewrite length_seq.
  - intros i r d Hr Hd. apply lookup_seq in Hr as [-> _].
    exists (Node_init d self). split; [|reflexivity].
    by apply heap_after_add_new.
Qed.

(** ** Tree.add_nodes *)

Lemma documents_of_length items :
  length (documents_of items)
  = length (filter (fun d => isinstance_Document d = true) items).
Proof.
  induction items as [|[d|q] items IH]; [reflexivity| |].
  - rewrite filter_cons_True by reflexivity. simpl. by rewrite IH.
  - rewrite filter_cons_False by (simpl; congruence). exact IH.
Qed.

Lemma documents_of_chars (q : Query) :
  documents_of (QueryData <$> PyStr.chars q) = [].
Proof. induction q as [|a q IH]; [reflexivity | exact IH]. Qed.

(** The documents that [add_nodes] counts are the Document items of its
    argument. *)
Lemma documents_of_normalize (dataset : dataset_arg) :
  length (documents_of (normalize dataset)) = count_documents dataset.
Proof.
  destruct dataset as [[d|q]|l]; simpl.
  - reflexivity.
  - unfold normalize. simpl. by rewrite documents_of_chars.
  - apply documents_of_length.
Qed.

Lemma has_documents (dataset : dataset_arg) :
  (0 < count_documents dataset)%nat <-> documents_of (normalize dataset) <> [].
Proof.
  rewrite <- documents_of_normalize.
  destruct (documents_of (normalize dataset)); simpl; split; try done; lia.
Qed.

Lemma has_no_documents (dataset : dataset_arg) :
  count_documents dataset = 0%nat <-> documents_of (normalize dataset) = [].
Proof.
  rewrite <- documents_of_normalize.
  destruct (documents_of (normalize dataset)); simpl; split; done.
Qed.

Lemma add_nodes_documents h t parent (dataset : dataset_arg) nd :
  h !! parent = Some nd ->
  documents_of (normalize dataset) <> [] ->
  add_nodes h t parent dataset
  = Some (heap_after_add h parent nd (normalize dataset),
          mkTree (root t)
            (tokens t +
             Z.of_nat (length (_encoding t
               (PyStr.join (page_content <$> documents_of (normalize dataset))))))
            (rev (children_after h nd (normalize dataset)) ++ leaf_nodes t)
            (doc_node_num t
             + Z.of_nat (length (documents_of (normalize dataset))))
            (embedding_model t) (_encoding t)).
Proof.
  intros Hp Hdocs. unfold add_nodes.
  rewrite (add_child_nodes_eq _ _ _ _ Hp). simpl.
  rewrite (heap_after_add_self _ _ _ _ Hp). simpl.
  destruct (documents_of (normalize dataset)) as [|d docs] eqn:Hd; [done|].
  simpl. by rewrite DequeFacts.extendleft_rev.
Qed.

Lemma add_nodes_queries h t parent (dataset : dataset_arg) nd :
  h !! parent = Some nd ->
  documents_of (normalize dataset) = [] ->
  add_nodes h t parent dataset
  = Some (heap_after_add h parent nd (normalize dataset),
          mkTree (root t) (tokens t)
            (leaf_nodes t ++ children_after h nd (normalize dataset))
            (doc_node_num t) (embedding_model t) (_encoding t)).
Proof.
  intros Hp Hdocs. unfold add_nodes.
  rewrite (add_child_nodes_eq _ _ _ _ Hp). simpl.
  rewrite (heap_after_add_self _ _ _ _ Hp). simpl.
  rewrite Hdocs. simpl. by rewrite DequeFacts.extend_app.
Qed.

Lemma add_nodes_is_Some h t parent (dataset : dataset_arg) :
  is_Some (add_nodes h t parent dataset) <-> is_Some (h !! parent).
Proof.
  split.
  - intros [st Hadd]. unfold add_nodes in Hadd.
    destruct (add_child_nodes h parent (normalize dataset)) eqn:Hc;
      [|discriminate].
    apply (add_child_nodes_is_Some h parent (normalize dataset)).
    rewrite Hc. eauto.
  - intros [nd Hp].
    destruct (documents_of (normalize dataset)) as [|d docs] eqn:Hd.
    + rewrite (add_nodes_queries _ _ _ _ _ Hp Hd). eauto.
    + erewrite add_nodes_documents by (try done; by rewrite Hd). eauto.
Qed.

(** C1, as amended.  When the dataset holds at least one Document, the
    call succeeds, the children of [parent] become the former ones
    followed by one new node per item, in the order of the dataset, and
    the whole list of children is pushed on the left end of [leaf_nodes]
    one node after the other: it stands at the front of the deque in
    reverse order.  For a parent without children and the dataset
    [[doc1; query1]] the deque starts with the node of [query1], then
    the node of [doc1]. *)
Theorem add_nodes_front_reversed h t parent (dataset : dataset_arg) nd :
  h !! parent = Some nd ->
  (0 < count_documents dataset)%nat ->
  exists h' t' nd',
    add_nodes h t parent dataset = Some (h', t') /\
    h' !! parent = Some nd' /\
    child_nodes nd' = child_nodes nd ++ fresh h (length (normalize dataset)) /\
    Forall2 (data_at h') (fresh h (length (normalize dataset)))
            (normalize dataset) /\
    leaf_nodes t' = rev (child_nodes nd') ++ leaf_nodes t /\
    (forall doc1 query1,
       child_nodes nd = [] ->
       dataset = Items [DocData doc1; QueryData query1] ->
       data_at h' (length h) (DocData doc1) /\
       data_at h' (S (length h)) (QueryData query1) /\
       leaf_nodes t' = [S (length h); length h] ++ leaf_nodes t).
Proof.
  intros Hp Hdocs. apply has_documents in Hdocs.
  eexists _, _, _. split; [by apply add_nodes_documents|].
  split; [by apply heap_after_add_self|]. simpl.
  split; [reflexivity|].
  split; [by apply heap_after_add_data|].
  split; [reflexivity|].
  intros doc1 query1 Hnil ->. unfold children_after, normalize. simpl.
  rewrite Hnil. simpl. repeat split.
  - exists (Node_init (DocData doc1) parent). split; [|reflexivity].
    pose proof (heap_after_add_new h parent nd
                  [DocData doc1; QueryData query1] 0 _ Hp eq_refl) as Hn.
    by rewrite Nat.add_0_r in Hn.
  - exists (Node_init (QueryData query1) parent). split; [|reflexivity].
    replace (S (length h)) with (length h + 1)%nat by lia.
    by apply heap_after_add_new.
Qed.

(** [add_nodes_front_reversed] on a root without children. *)
Lemma add_nodes_front_reversed_witness :
  exists h' t',
    add_nodes root_only sample_tree 0
      (Items [DocData sample_doc; QueryData "q1"]) = Some (h', t') /\
    data_at h' 1 (DocData sample_doc) /\
    data_at h' 2 (QueryData "q1") /\
    leaf_nodes t' = [2; 1]%nat.
Proof.
  destruct (add_nodes_front_reversed root_only sample_tree 0
              (Items [DocData sample_doc; QueryData "q1"])
              (mkNode (QueryData "root") None [] false)
              eq_refl (Nat.lt_0_succ 0))
    as (h' & t' & nd' & Hadd & _ & _ & _ & _ & Hex).
  destruct (Hex sample_doc "q1" eq_refl eq_refl) as (H1 & H2 & H3).
  exists h', t'. repeat split; assumption.
Defined.

(** C1, as stated, fails: after [add_nodes(R, [doc1, query1])] on a root
    without children, the node of [query1] stands before the node of
    [doc1] in [leaf_nodes]. *)
Lemma add_nodes_front_order_counterexample :
  exists h' t',
    add_nodes root_only sample_tree 0
      (Items [DocData sample_doc; QueryData "q1"]) = Some (h', t') /\
    data_at h' 1 (DocData sample_doc) /\
    data_at h' 2 (QueryData "q1") /\
    leaf_nodes t' = [2; 1]%nat /\
    leaf_nodes t' <> [1; 2]%nat.
Proof.
  eexists _, _. split; [reflexivity|]. simpl.
  split; [eexists; split; reflexivity|].
  split; [eexists; split; reflexivity|].
  split; [reflexivity | discriminate].
Qed.

Lemma join_documents items :
  PyStr.join (page_content <$> documents_of items) = document_texts items.
Proof.
  induction items as [|[d|q] items IH]; [reflexivity| |exact IH].
  change (PyStr.join (page_content d :: (page_content <$> documents_of items))
          = page_content d +:+ document_texts items).
  change (page_content d +:+ PyStr.join (page_content <$> documents_of items)
          = page_content d +:+ document_texts items).
  by rewrite IH.
Qed.

(** The text that [add_nodes] hands to the encoder is the contents of the
    Documents of its argument, in the order of the argument. *)
Lemma join_dataset (dataset : dataset_arg) :
  PyStr.join (page_content <$> documents_of (normalize dataset))
  = dataset_texts dataset.
Proof.
  destruct dataset as [[d|q]|l]; simpl.
  - apply PyStrFacts.join_singleton.
  - unfold normalize. simpl. by rewrite documents_of_chars.
  - apply join_documents.
Qed.

(** C3.  When the dataset holds at least one Document, [tokens] grows by
    the number of tokens that the tree's tokenizer gives for the
    [page_content] of the Documents of the dataset, written one after
    the other in the order of the dataset; the queries add nothing: for
    [[doc1; query1]] the growth is the count for [doc1.page_content], and
    for [[doc1; query1; doc2]] it is the count for the content of [doc1]
    followed by the content of [doc2]. *)
Theorem add_nodes_tokens h t parent (dataset : dataset_arg) nd :
  h !! parent = Some nd ->
  (0 < count_documents dataset)%nat ->
  exists h' t',
    add_nodes h t parent dataset = Some (h', t') /\
    tokens t' =
      tokens t + Z.of_nat (length (_encoding t (dataset_texts dataset))) /\
    (forall doc1 query1,
       dataset = Items [DocData doc1; QueryData query1] ->
       tokens t' =
         tokens t + Z.of_nat (length (_encoding t (page_content doc1)))) /\
    (forall doc1 query1 doc2,
       dataset = Items [DocData doc1; QueryData query1; DocData doc2] ->
       tokens t' =
         tokens t +
         Z.of_nat (length (_encoding t
                     (page_content doc1 +:+ page_content doc2)))).
Proof.
  intros Hp Hdocs. apply has_documents in Hdocs.
  eexists _, _. split; [by apply add_nodes_documents|]. simpl.
  rewrite join_dataset. split; [reflexivity|]. split.
  - intros doc1 query1 ->. simpl. by rewrite PyStrFacts.append_empty_r.
  - intros doc1 query1 doc2 ->. simpl.
    by rewrite PyStrFacts.append_empty_r.
Qed.

Lemma add_nodes_tokens_witness :
  exists h' t',
    add_nodes root_only sample_tree 0
      (Items [DocData sample_doc; QueryData "q1"; DocData second_doc])
      = Some (h', t') /\
    tokens t' = 0 + Z.of_nat (length (char_tokens default_model "helloworld")).
Proof.
  destruct (add_nodes_tokens root_only sample_tree 0
              (Items [DocData sample_doc; QueryData "q1"; DocData second_doc])
              (mkNode (QueryData "root") None [] false)
              eq_refl (Nat.lt_0_succ 1))
    as (h' & t' & Hadd & _ & _ & Hex).
  exists h', t'. split; [assumption|].
  exact (Hex sample_doc "q1" second_doc eq_refl).
Defined.

Example add_nodes_tokens_two_documents :
  (st ← add_nodes root_only sample_tree 0
          (Items [DocData sample_doc; QueryData "q1"; DocData second_doc]);
   Some (tokens st.2, doc_node_num st.2))
  = Some (10, 2).
Proof. reflexivity. Qed.

(** C5.  When the dataset holds no Document, the call succeeds, the
    children of [parent] become the former ones followed by the new
    query nodes, this whole list is appended, in its order, to the right
    end of [leaf_nodes], and [tokens] and [doc_node_num] keep their
    values. *)
Theorem add_nodes_queries_back h t parent (dataset : dataset_arg) nd :
  h !! parent = Some nd ->
  count_documents dataset = 0%nat ->
  exists h' t' nd',
    add_nodes h t parent dataset = Some (h', t') /\
    h' !! parent = Some nd' /\
    child_nodes nd' = child_nodes nd ++ fresh h (length (normalize dataset)) /\
    Forall2 (data_at h') (fresh h (length (normalize dataset)))
            (normalize dataset) /\
    leaf_nodes t' = leaf_nodes t ++ child_nodes nd' /\
    tokens t' = tokens t /\
    doc_node_num t' = doc_node_num t.
Proof.
  intros Hp Hdocs. apply has_no_documents in Hdocs.
  eexists _, _, _. split; [by apply add_nodes_queries|].
  split; [by apply heap_after_add_self|]. simpl.
  split; [reflexivity|].
  split; [by apply heap_after_add_data|].
  repeat split.
Qed.

Lemma add_nodes_queries_back_witness :
  exists h' t',
    add_nodes root_with_two tree_after_first 0 (Items [QueryData "q2"])
      = Some (h', t') /\
    data_at h' 3 (QueryData "q2") /\
    leaf_nodes t' = [2; 1; 1; 2; 3]%nat /\
    tokens t' = 5 /\ doc_node_num t' = 1.
Proof.
  destruct (add_nodes_queries_back root_with_two tree_after_first 0
              (Items [QueryData "q2"])
              (mkNode (QueryData "root") None [1; 2]%nat false)
              eq_refl eq_refl)
    as (h' & t' & nd' & Hadd & Hp & Hch & Hdata & Hleaf & Htok & Hnum).
  exists h', t'. split; [assumption|].
  split; [by inversion Hdata|].
  rewrite Hleaf, Hch. repeat split; assumption.
Defined.

(** ** Tree.add_nodes on a single item *)

(** A single Document is wrapped in a list. *)
Lemma add_nodes_single_document h t parent (d : Document) :
  add_nodes h t parent (Item (DocData d))
  = add_nodes h t parent (Items [DocData d]).
Proof. reflexivity. Qed.

(** A single Query is a [str], hence a Sequence: it is not wrapped, and
    the loop of [add_child_nodes] runs over its characters. *)
Lemma add_nodes_single_query h t parent (q : Query) :
  add_nodes h t parent (Item (QueryData q))
  = add_nodes h t parent (Items (QueryData <$> PyStr.chars q)).
Proof. reflexivity. Qed.

(** C2 at the query ["ab"]: [add_nodes(R, "ab")] makes two children of
    the root, with the data ["a"] and ["b"], where [add_nodes(R, ["ab"])]
    makes one child with the data ["ab"]. *)
Theorem add_nodes_single_query_split :
  (exists h' t',
     add_nodes root_only sample_tree 0 (Item (QueryData "ab"))
       = Some (h', t') /\
     h' !! 0%nat = Some (mkNode (QueryData "root") None [1; 2]%nat false) /\
     data_at h' 1 (QueryData "a") /\
     data_at h' 2 (QueryData "b") /\
     length h' = 3%nat)
  /\ (exists h' t',
       add_nodes root_only sample_tree 0 (Items [QueryData "ab"])
         = Some (h', t') /\
       h' !! 0%nat = Some (mkNode (QueryData "root") None [1]%nat false) /\
       data_at h' 1 (QueryData "ab") /\
       length h' = 2%nat)
  /\ isinstance_Sequence (Item (QueryData "ab")) = true.
Proof.
  split; [|split; [|reflexivity]].
  - eexists _, _. split; [reflexivity|]. simpl.
    split; [reflexivity|].
    split; [eexists; split; reflexivity|].
    split; [eexists; split; reflexivity | reflexivity].
  - eexists _, _. split; [reflexivity|]. simpl.
    split; [reflexivity|].
    split; [eexists; split; reflexivity | reflexivity].
Qed.

(** ** Node.all_nodes *)

(** The loop [for node in self.child_nodes: nodes.extend(...)], given what
    the calls on the children return. *)
Lemma extend_subtrees (f : ref -> option (list ref)) (children acc : list ref) :
  fold_left
    (fun (acc : option (list ref)) node =>
       nodes ← acc; sub ← f node; Some (nodes ++ sub))
    children (Some acc)
  = subs ← mapM f children; Some (acc ++ concat subs).
Proof.
  revert acc; induction children as [|c children IH]; intros acc; simpl.
  - by rewrite app_nil_r.
  - destruct (f c) as [sub|] eqn:Hc; simpl.
    + rewrite IH. destruct (mapM f children); simpl; [|reflexivity].
      by rewrite app_assoc.
    + clear IH. induction children as [|c' children IH]; [reflexivity|].
      exact IH.
Qed.

Lemma all_nodes_step (fuel : nat) h self :
  all_nodes (S fuel) h self
  = nd ← h !! self;
    subs ← mapM (all_nodes fuel h) (child_nodes nd);
    Some (self :: concat subs).
Proof.
  simpl. destruct (h !! self) as [nd|]; simpl; [|reflexivity].
  by rewrite extend_subtrees.
Qed.

(** More fuel does not change a result. *)
Lemma all_nodes_mono (fuel fuel' : nat) h self (nodes : list ref) :
  (fuel <= fuel')%nat ->
  all_nodes fuel h self = Some nodes ->
  all_nodes fuel' h self = Some nodes.
Proof.
  revert fuel' self nodes.
  induction fuel as [|fuel IH]; intros fuel' self nodes Hle Hret;
    [discriminate|].
  destruct fuel' as [|fuel']; [lia|].
  rewrite all_nodes_step in *.
  destruct (h !! self) as [nd|]; [|discriminate]. simpl in *.
  destruct (mapM (all_nodes fuel h) (child_nodes nd)) as [subs|] eqn:Hsubs;
    [|discriminate].
  simpl in Hret. apply mapM_Some in Hsubs.
  assert (Hsubs' : mapM (all_nodes fuel' h) (child_nodes nd) = Some subs).
  { apply mapM_Some. eapply Forall2_impl; [exact Hsubs|].
    intros c sub Hc. apply IH; [lia | exact Hc]. }
  by rewrite Hsubs'.
Qed.

(** A call has one result. *)
Lemma all_nodes_returns_det h self (l1 l2 : list ref) :
  all_nodes_returns h self l1 -> all_nodes_returns h self l2 -> l1 = l2.
Proof.
  intros [f1 H1] [f2 H2].
  apply (all_nodes_mono f1 (Nat.max f1 f2)) in H1; [|lia].
  apply (all_nodes_mono f2 (Nat.max f1 f2)) in H2; [|lia].
  congruence.
Qed.

(** On a tree of finite depth the recursion ends. *)
Lemma all_nodes_total (d : nat) h self :
  depth_le d h self -> is_Some (all_nodes d h self).
Proof.
  revert self. induction d as [|d IH]; intros self Hd; [done|].
  destruct Hd as (nd & Hnd & Hch).
  rewrite all_nodes_step, Hnd. simpl.
  assert (Hsubs : is_Some (mapM (all_nodes d h) (child_nodes nd))).
  { apply mapM_is_Some. eapply Forall_impl; [exact Hch|]. exact IH. }
  destruct Hsubs as [subs Hsubs]. rewrite Hsubs. simpl. eauto.
Qed.

Lemma all_nodes_returns_total h self :
  finite_tree h self -> exists nodes, all_nodes_returns h self nodes.
Proof.
  intros [d Hd]. destruct (all_nodes_total d h self Hd) as [nodes Hret].
  exists nodes. by exists d.
Qed.

(** A call that returns has walked a tree of finite depth. *)
Lemma all_nodes_returns_finite h self (nodes : list ref) :
  all_nodes_returns h self nodes -> finite_tree h self.
Proof.
  intros [fuel Hret]. exists fuel. revert self nodes Hret.
  induction fuel as [|fuel IH]; intros self nodes Hret; [discriminate|].
  rewrite all_nodes_step in Hret.
  destruct (h !! self) as [nd|] eqn:Hnd; [|discriminate]. simpl in Hret.
  destruct (mapM (all_nodes fuel h) (child_nodes nd)) as [subs|] eqn:Hsubs;
    [|discriminate].
  exists nd. split; [exact Hnd|].
  apply mapM_Some in Hsubs. clear Hret Hnd.
  induction Hsubs as [|c sub cs subs Hc _ IHs]; constructor; eauto.
Qed.

(** The stores built by the constructor and [add_child_nodes] hold trees
    of finite depth only. *)
Lemma heap_wf_depth (d : nat) h self :
  heap_wf h ->
  (self < length h)%nat ->
  (length h - self <= d)%nat ->
  depth_le d h self.
Proof.
  intros Hwf. revert self.
  induction d as [|d IH]; intros self Hlt Hd; [lia|].
  destruct (lookup_lt_is_Some_2 h self Hlt) as [nd Hnd].
  exists nd. split; [exact Hnd|].
  eapply Forall_impl; [exact (Hwf _ _ Hnd)|].
  intros c Hc. simpl in *. apply IH; lia.
Qed.

Lemma heap_wf_finite_tree h self :
  heap_wf h -> is_Some (h !! self) -> finite_tree h self.
Proof.
  intros Hwf Hself. apply lookup_lt_is_Some_1 in Hself.
  exists (length h - self)%nat. by apply heap_wf_depth.
Qed.

(** What a call returns, in terms of what the calls on the children
    return. *)
Lemma all_nodes_returns_step h self nd (nodes : list ref) :
  h !! self = Some nd ->
  all_nodes_returns h self nodes <->
  exists subs,
    Forall2 (all_nodes_returns h) (child_nodes nd) subs /\
    nodes = self :: concat subs.
Proof.
  intros Hself. split.
  - intros [fuel Hret]. destruct fuel as [|fuel]; [discriminate|].
    rewrite all_nodes_step, Hself in Hret. simpl in Hret.
    destruct (mapM (all_nodes fuel h) (child_nodes nd)) as [subs|] eqn:Hsubs;
      [|discriminate].
    simpl in Hret. exists subs. split; [|congruence].
    apply mapM_Some in Hsubs. eapply Forall2_impl; [exact Hsubs|].
    intros c sub Hc. by exists fuel.
  - intros (subs & Hsubs & ->).
    assert (Hfuel : exists fuel,
              Forall2 (fun c sub => all_nodes fuel h c = Some sub)
                      (child_nodes nd) subs).
    { clear Hself. induction Hsubs as [|c sub cs subs [f Hc] _ [f' IH]].
      - exists 0%nat. constructor.
      - exists (Nat.max f f'). constructor.
        + eapply all_nodes_mono; [|exact Hc]. lia.
        + eapply Forall2_impl; [exact IH|].
          intros c' sub' Hc'. eapply all_nodes_mono; [|exact Hc']. lia. }
    destruct Hfuel as [fuel Hfuel]. exists (S fuel).
    rewrite all_nodes_step, Hself. simpl.
    apply mapM_Some in Hfuel. by rewrite Hfuel.
Qed.

(** C7.  On a tree of finite depth, of any depth, the call
    [n.all_nodes()] returns; its result is [n] followed by the
    results of the calls on the children of [n], concatenated in the
    order of [child_nodes], which is the order of insertion; and the
    result is the same at every call on the same store.  The function
    reads the store and returns no new one. *)
Theorem all_nodes_preorder h n nd :
  finite_tree h n ->
  h !! n = Some nd ->
  exists subs,
    Forall2 (all_nodes_returns h) (child_nodes nd) subs /\
    all_nodes_returns h n (n :: concat subs) /\
    (forall nodes, all_nodes_returns h n nodes -> nodes = n :: concat subs).
Proof.
  intros Hfin Hn.
  destruct (all_nodes_returns_total h n Hfin) as [nodes Hret].
  destruct (proj1 (all_nodes_returns_step h n nd nodes Hn) Hret)
    as (subs & Hsubs & ->).
  exists subs. split; [exact Hsubs|]. split; [exact Hret|].
  intros nodes' Hret'. by eapply all_nodes_returns_det.
Qed.

Lemma sample_heap_wf : heap_wf sample_heap.
Proof.
  intros n nd Hn. destruct n as [|[|[|[|n]]]]; simpl in Hn;
    try discriminate; injection Hn as <-; simpl;
    repeat constructor; simpl; lia.
Qed.

Lemma all_nodes_preorder_witness :
  exists subs,
    Forall2 (all_nodes_returns sample_heap) [1; 2]%nat subs /\
    all_nodes_returns sample_heap 0 (0%nat :: concat subs) /\
    (forall nodes,
       all_nodes_returns sample_heap 0 nodes -> nodes = 0%nat :: concat subs).
Proof.
  apply (all_nodes_preorder sample_heap 0
           (mkNode (QueryData "root") None [1; 2]%nat false)).
  - exists 3%nat. simpl. repeat econstructor.
  - reflexivity.
Defined.

Example all_nodes_sample :
  all_nodes 3 sample_heap 0 = Some [0; 1; 3; 2]%nat.
Proof. reflexivity. Qed.

(** ** The stores that the operations build *)

Lemma root_only_wf : heap_wf root_only.
Proof.
  intros n nd Hn. destruct n as [|n]; simpl in Hn; [|discriminate].
  injection Hn as <-. constructor.
Qed.

Lemma add_child_nodes_wf h self items h' :
  heap_wf h ->
  add_child_nodes h self items = Some h' ->
  heap_wf h'.
Proof.
  intros Hwf Hadd.
  destruct (proj1 (add_child_nodes_is_Some h self items)) as [nd Hself];
    [eauto|].
  rewrite (add_child_nodes_eq _ _ _ _ Hself) in Hadd. injection Hadd as <-.
  pose proof (lookup_lt_Some _ _ _ Hself) as Hlt.
  intros n nd' Hn. rewrite heap_after_add_length.
  destruct (decide (n = self)) as [->|Hne].
  - rewrite (heap_after_add_self _ _ _ _ Hself) in Hn. injection Hn as <-.
    simpl. apply Forall_app. split.
    + eapply Forall_impl; [exact (Hwf _ _ Hself)|]. simpl. lia.
    + apply Forall_forall. intros c Hc. apply elem_of_seq in Hc. lia.
  - destruct (decide (n < length h)%nat) as [Hn'|Hn'].
    + rewrite heap_after_add_old in Hn by done.
      eapply Forall_impl; [exact (Hwf _ _ Hn)|]. simpl. lia.
    + unfold heap_after_add in Hn.
      rewrite list_lookup_insert_ne in Hn by done.
      rewrite lookup_app_r in Hn by lia.
      rewrite list_lookup_fmap in Hn.
      destruct (items !! (n - length h)%nat); [|discriminate].
      injection Hn as <-. constructor.
Qed.

Lemma delete_eq h self nd :
  h !! self = Some nd ->
  delete h self = Some (<[self := with_deleted nd true]> h).
Proof. intros Hself. unfold delete. by rewrite Hself. Qed.

Lemma delete_is_Some h self :
  is_Some (delete h self) <-> is_Some (h !! self).
Proof.
  unfold delete. destruct (h !! self); simpl; split; intros [? ?];
    try discriminate; eauto.
Qed.

(** [delete] sets the flag of one node and changes nothing else. *)
Lemma delete_lookup h self h' n :
  delete h self = Some h' ->
  h' !! n =
    if decide (n = self) then (fun nd => with_deleted nd true) <$> h !! n
    else h !! n.
Proof.
  intros Hdel. unfold delete in Hdel.
  destruct (h !! self) as [nd|] eqn:Hself; [|discriminate].
  injection Hdel as <-. destruct (decide (n = self)) as [->|Hne].
  - rewrite Hself. simpl. apply list_lookup_insert_eq.
    by eapply lookup_lt_Some.
  - by apply list_lookup_insert_ne.
Qed.

Lemma delete_child_nodes h self h' n :
  delete h self = Some h' ->
  child_nodes <$> h' !! n = child_nodes <$> h !! n.
Proof.
  intros Hdel. rewrite (delete_lookup _ _ _ n Hdel).
  destruct (decide (n = self)); [|reflexivity].
  by destruct (h !! n).
Qed.

Lemma delete_length h self h' :
  delete h self = Some h' -> length h' = length h.
Proof.
  intros Hdel. unfold delete in Hdel.
  destruct (h !! self); [|discriminate]. injection Hdel as <-.
  apply length_insert.
Qed.

Lemma delete_wf h self h' :
  heap_wf h -> delete h self = Some h' -> heap_wf h'.
Proof.
  intros Hwf Hdel n nd Hn. rewrite (delete_length _ _ _ Hdel).
  pose proof (delete_child_nodes _ _ _ n Hdel) as Hch.
  rewrite Hn in Hch. simpl in Hch.
  destruct (h !! n) as [nd0|] eqn:Hn0; [|discriminate].
  injection Hch as ->. by eapply Hwf.
Qed.

(** The traversal reads the children only: stores with the same children
    give the same result. *)
Lemma all_nodes_same_children (fuel : nat) h h' self :
  (forall n, child_nodes <$> h' !! n = child_nodes <$> h !! n) ->
  all_nodes fuel h' self = all_nodes fuel h self.
Proof.
  intros Hch. revert self.
  induction fuel as [|fuel IH]; intros self; [reflexivity|].
  rewrite !all_nodes_step. specialize (Hch self) as Hs.
  destruct (h' !! self) as [nd'|], (h !! self) as [nd|];
    simpl in *; try discriminate; [|reflexivity].
  injection Hs as ->.
  assert (Hm : mapM (all_nodes fuel h') (child_nodes nd)
               = mapM (all_nodes fuel h) (child_nodes nd)).
  { generalize (child_nodes nd) as cs. intros cs.
    induction cs as [|c cs IHcs]; [reflexivity|].
    simpl. by rewrite IH, IHcs. }
  by rewrite Hm.
Qed.

Lemma all_nodes_delete (fuel : nat) h m h' self :
  delete h m = Some h' ->
  all_nodes fuel h' self = all_nodes fuel h self.
Proof.
  intros Hdel. apply all_nodes_same_children.
  intros n. by eapply delete_child_nodes.
Qed.

(** ** Node.all_documents *)

Lemma live_document_at_spec h n :
  live_document_at h n = true <->
  exists nd, h !! n = Some nd /\
             node_type nd = "Document" /\ deleted nd = false.
Proof.
  unfold live_document_at, live_document. split.
  - destruct (h !! n) as [nd|]; [|discriminate]. intros Hlive.
    apply andb_prop in Hlive as [Hty Hdel].
    exists nd. split; [reflexivity|]. split.
    + by apply String.eqb_eq.
    + by apply negb_true_iff.
  - intros (nd & -> & Hty & Hdel). rewrite Hty, Hdel. reflexivity.
Qed.

(** The comprehension keeps the data of the live documents, in the order
    of the nodes. *)
Lemma select_documents_filter h (nodes : list ref) :
  Forall2 (data_at h)
          (filter (fun r => live_document_at h r = true) nodes)
          (select_documents h nodes).
Proof.
  induction nodes as [|r nodes IH]; [constructor|]. simpl.
  destruct (h !! r) as [nd|] eqn:Hr.
  - destruct (live_document nd) eqn:Hlive.
    + rewrite filter_cons_True
        by (unfold live_document_at; by rewrite Hr).
      constructor; [by exists nd | exact IH].
    + rewrite filter_cons_False
        by (unfold live_document_at; rewrite Hr; congruence).
      exact IH.
  - rewrite filter_cons_False
      by (unfold live_document_at; rewrite Hr; congruence).
    exact IH.
Qed.

Lemma select_documents_are_documents h (nodes : list ref) :
  Forall (fun d => isinstance_Document d = true) (select_documents h nodes).
Proof.
  induction nodes as [|r nodes IH]; [constructor|]. simpl.
  destruct (h !! r) as [nd|]; [|exact IH].
  destruct (live_document nd) eqn:Hlive; [|exact IH].
  constructor; [|exact IH].
  unfold live_document, node_type in Hlive.
  by destruct (isinstance_Document (data nd)).
Qed.

(** After [m.delete()] the comprehension passes over [m]. *)
Lemma select_documents_delete h m h' (nodes : list ref) :
  delete h m = Some h' ->
  select_documents h' nodes
  = select_documents h (filter (fun r => r <> m) nodes).
Proof.
  intros Hdel. induction nodes as [|r nodes IH]; [reflexivity|].
  simpl. rewrite (delete_lookup _ _ _ r Hdel).
  destruct (decide (r = m)) as [->|Hne].
  - rewrite filter_cons_False by (intros Hm; by apply Hm).
    destruct (h !! m) as [nd|]; simpl; [|exact IH].
    unfold live_document. simpl. rewrite andb_false_r. exact IH.
  - rewrite filter_cons_True by done. simpl.
    destruct (h !! r) as [nd|]; [|exact IH].
    destruct (live_document nd); [by rewrite IH | exact IH].
Qed.

Lemma delete_not_live h m h' :
  delete h m = Some h' -> live_document_at h' m = false.
Proof.
  intros Hdel. unfold live_document_at.
  rewrite (delete_lookup _ _ _ m Hdel), decide_True by done.
  destruct (h !! m) as [nd|]; [|reflexivity]. simpl.
  unfold live_document. simpl. apply andb_false_r.
Qed.

(** The test of the comprehension holds of the nodes that hold a Document
    and are not deleted, and of no other. *)
Lemma visible_document_live h n :
  visible_document h n = live_document_at h n.
Proof.
  unfold visible_document, live_document_at.
  destruct (h !! n) as [[[d|q] p cs [|]]|]; reflexivity.
Qed.

Lemma select_documents_visible h (nodes : list ref) :
  Forall2 (data_at h)
          (filter (fun r => visible_document h r = true) nodes)
          (select_documents h nodes).
Proof.
  rewrite (list_filter_iff _ (fun r => live_document_at h r = true)).
  - apply select_documents_filter.
  - intros r. by rewrite visible_document_live.
Qed.

Lemma select_documents_visible_without h m (nodes : list ref) :
  Forall2 (data_at h)
          (filter (fun r => visible_document h r = true /\ r <> m) nodes)
          (select_documents h (filter (fun r => r <> m) nodes)).
Proof.
  rewrite <- list_filter_filter. apply select_documents_visible.
Qed.

Lemma all_documents_returns_det h n (docs1 docs2 : list NodeDataType) :
  all_documents_returns h n docs1 -> all_documents_returns h n docs2 ->
  docs1 = docs2.
Proof.
  intros [f1 H1] [f2 H2]. unfold all_documents in *.
  destruct (all_nodes f1 h n) as [l1|] eqn:Hl1; [|discriminate].
  destruct (all_nodes f2 h n) as [l2|] eqn:Hl2; [|discriminate].
  injection H1 as <-. injection H2 as <-.
  by rewrite (all_nodes_returns_det h n l1 l2) by (eexists; eassumption).
Qed.

(** C6.  On a tree of finite depth, of any depth, the call
    [n.all_documents()] returns, and its one result is the data of the
    nodes of [n.all_nodes()] that hold a Document and whose flag
    [deleted] is false, in the order of [n.all_nodes()].  For every node
    [m], the call [m.delete()] succeeds; after it, [n.all_nodes()]
    returns the same nodes, [m] among them if it was, and
    [n.all_documents()] returns the data of the same nodes without
    [m]. *)
Theorem all_documents_live h n :
  finite_tree h n ->
  exists nodes docs,
    all_nodes_returns h n nodes /\
    (forall nodes0, all_nodes_returns h n nodes0 -> nodes0 = nodes) /\
    all_documents_returns h n docs /\
    (forall docs0, all_documents_returns h n docs0 -> docs0 = docs) /\
    Forall2 (data_at h)
            (filter (fun r => visible_document h r = true) nodes) docs /\
    forall m,
      is_Some (h !! m) ->
      exists h' docs',
        delete h m = Some h' /\
        all_nodes_returns h' n nodes /\
        all_documents_returns h' n docs' /\
        (forall docs0, all_documents_returns h' n docs0 -> docs0 = docs') /\
        Forall2 (data_at h)
          (filter (fun r => visible_document h r = true /\ r <> m) nodes)
          docs'.
Proof.
  intros Hfin.
  destruct (all_nodes_returns_total h n Hfin) as [nodes [fuel Hret]].
  exists nodes, (select_documents h nodes).
  split; [by exists fuel|].
  split.
  { intros nodes0 Hret0. apply (all_nodes_returns_det h n); [exact Hret0|].
    by exists fuel. }
  assert (Hdocs : all_documents_returns h n (select_documents h nodes)).
  { exists fuel. unfold all_documents. by rewrite Hret. }
  split; [exact Hdocs|].
  split; [intros docs0 Hdocs0; by apply (all_documents_returns_det h n)|].
  split; [apply select_documents_visible|].
  intros m Hm. destruct (proj2 (delete_is_Some h m) Hm) as [h' Hdel].
  exists h', (select_documents h' nodes).
  split; [exact Hdel|].
  split; [exists fuel; by rewrite (all_nodes_delete _ _ _ _ _ Hdel)|].
  assert (Hdocs' : all_documents_returns h' n (select_documents h' nodes)).
  { exists fuel. unfold all_documents.
    by rewrite (all_nodes_delete _ _ _ _ _ Hdel), Hret. }
  split; [exact Hdocs'|].
  split; [intros docs0 Hdocs0; by apply (all_documents_returns_det h' n)|].
  rewrite (select_documents_delete _ _ _ _ Hdel).
  apply select_documents_visible_without.
Qed.

(** On the store [sample_heap]: the documents of the nodes 1 and 3 are
    returned, and after the deletion of the node 1 the node 1 is still
    returned by [all_nodes] and only the document of the node 3 by
    [all_documents]. *)
Lemma all_documents_live_witness :
  exists nodes docs h' docs',
    all_nodes_returns sample_heap 0 nodes /\
    nodes = [0; 1; 3; 2]%nat /\
    all_documents_returns sample_heap 0 docs /\
    docs = [DocData sample_doc; DocData (mkDocument ∅ "world")] /\
    delete sample_heap 1 = Some h' /\
    all_nodes_returns h' 0 nodes /\
    all_documents_returns h' 0 docs' /\
    docs' = [DocData (mkDocument ∅ "world")].
Proof.
  destruct (all_documents_live sample_heap 0) as
    (nodes & docs & Hnodes & Hn1 & Hdocs & Hd1 & _ & Hdel).
  { exists 3%nat. simpl. repeat econstructor. }
  destruct (Hdel 1%nat) as (h' & docs' & Hd' & Hnodes' & Hdocs' & Hd1' & _).
  { by eexists. }
  exists nodes, docs, h', docs'.
  split; [exact Hnodes|].
  split; [symmetry; apply Hn1; by exists 3%nat|].
  split; [exact Hdocs|].
  split; [symmetry; apply Hd1; by exists 3%nat|].
  split; [exact Hd'|].
  split; [exact Hnodes'|].
  split; [exact Hdocs'|].
  symmetry. apply Hd1'. injection Hd' as <-. by exists 3%nat.
Defined.

Example all_documents_sample :
  all_documents 3 sample_heap 0
  = Some [DocData sample_doc; DocData (mkDocument ∅ "world")].
Proof. reflexivity. Qed.

Example all_documents_after_delete :
  (h' ← delete sample_heap 1;
   nodes ← all_nodes 3 h' 0;
   docs ← all_documents 3 h' 0;
   Some (nodes, docs))
  = Some ([0; 1; 3; 2]%nat, [DocData (mkDocument ∅ "world")]).
Proof. reflexivity. Qed.

(** ** Sequences of calls: the counters *)

(** What a successful call of [add_nodes] has done. *)
Lemma add_nodes_inv h t parent (dataset : dataset_arg) h' t' :
  add_nodes h t parent dataset = Some (h', t') ->
  exists nd,
    h !! parent = Some nd /\
    h' = heap_after_add h parent nd (normalize dataset) /\
    doc_node_num t' = doc_node_num t + Z.of_nat (count_documents dataset) /\
    tokens t <= tokens t' /\
    (count_documents dataset = 0%nat -> tokens t' = tokens t) /\
    (leaf_nodes t' =
       rev (children_after h nd (normalize dataset)) ++ leaf_nodes t \/
     leaf_nodes t' =
       leaf_nodes t ++ children_after h nd (normalize dataset)).
Proof.
  intros Hadd.
  destruct (proj1 (add_nodes_is_Some h t parent dataset)) as [nd Hp];
    [eauto|].
  exists nd. split; [exact Hp|].
  destruct (documents_of (normalize dataset)) as [|d docs] eqn:Hd.
  - rewrite (add_nodes_queries _ _ _ _ _ Hp Hd) in Hadd.
    injection Hadd as <- <-. simpl.
    apply has_no_documents in Hd. rewrite Hd.
    repeat split; [lia | lia | by right].
  - assert (Hne : documents_of (normalize dataset) <> []) by by rewrite Hd.
    rewrite (add_nodes_documents _ _ _ _ _ Hp Hne) in Hadd.
    injection Hadd as <- <-. simpl.
    rewrite documents_of_normalize.
    apply has_documents in Hne.
    repeat split; [lia | lia | by left].
Qed.

Lemma exec_counters (st st' : heap * Tree) (c : call) :
  exec st c = Some st' ->
  doc_node_num st'.2 = doc_node_num st.2 + documents_passed [c] /\
  tokens st.2 <= tokens st'.2 /\
  (is_delete c -> tokens st'.2 = tokens st.2).
Proof.
  destruct st as [h t], st' as [h' t'], c as [parent dataset|node]; simpl.
  - intros Hadd.
    destruct (add_nodes_inv _ _ _ _ _ _ Hadd) as (nd & _ & _ & Hn & Ht & _).
    split; [lia|]. split; [exact Ht | done].
  - intros Hdel. destruct (delete h node); [|discriminate].
    injection Hdel as <- <-. split; [lia|]. split; [lia | done].
Qed.

Lemma documents_passed_nonneg (cs : list call) : 0 <= documents_passed cs.
Proof. induction cs as [|[parent dataset|node] cs IH]; simpl; lia. Qed.

Lemma documents_passed_deletes (cs : list call) :
  Forall is_delete cs -> documents_passed cs = 0.
Proof.
  induction 1 as [|[parent dataset|node] cs Hc _ IH]; simpl; [done|done|].
  exact IH.
Qed.

(** C4.  After any sequence of calls of [add_nodes] and [delete] that
    runs to its end, [doc_node_num] has grown by the number of Document
    items passed to [add_nodes], all calls together; on a tree made by
    the constructor, where it starts at 0, it is that number.  Neither
    [tokens] nor [doc_node_num] is smaller after the calls than before,
    and calls of [delete] alone leave both as they were. *)
Theorem counters_accumulate (cs : list call) h t h' t' :
  exec_all (h, t) cs = Some (h', t') ->
  doc_node_num t' = doc_node_num t + documents_passed cs /\
  (forall encoding_for_model r model,
     t = Tree_init encoding_for_model r model ->
     doc_node_num t' = documents_passed cs) /\
  tokens t <= tokens t' /\
  doc_node_num t <= doc_node_num t' /\
  (Forall is_delete cs ->
     tokens t' = tokens t /\ doc_node_num t' = doc_node_num t).
Proof.
  intros Hrun.
  assert (H : doc_node_num t' = doc_node_num t + documents_passed cs /\
              tokens t <= tokens t' /\
              (Forall is_delete cs -> tokens t' = tokens t)).
  { revert h t Hrun. induction cs as [|c cs IH]; intros h t Hrun.
    - injection Hrun as <- <-. simpl. repeat split; lia.
    - simpl in Hrun. destruct (exec (h, t) c) as [[h1 t1]|] eqn:Hc;
        [|discriminate].
      simpl in Hrun. destruct (IH _ _ Hrun) as (Hn & Ht & Hd).
      destruct (exec_counters _ _ _ Hc) as (Hn1 & Ht1 & Hd1). simpl in *.
      split; [destruct c; simpl in *; lia|].
      split; [lia|].
      intros Hall. apply Forall_cons in Hall as [Hc' Hall].
      rewrite (Hd Hall). by apply Hd1. }
  destruct H as (Hn & Ht & Hd).
  pose proof (documents_passed_nonneg cs) as Hpos.
  split; [exact Hn|].
  split; [intros efm r model ->; simpl in Hn; lia|].
  split; [exact Ht|]. split; [lia|].
  intros Hall. split; [by apply Hd|].
  rewrite (documents_passed_deletes cs Hall) in Hn. lia.
Qed.

Lemma counters_accumulate_witness :
  exists h' t',
    exec_all (root_only, sample_tree)
      [Call_add_nodes 0 (Items [DocData sample_doc; QueryData "q1"]);
       Call_delete 1;
       Call_add_nodes 2 (Item (DocData sample_doc))]
      = Some (h', t') /\
    doc_node_num t' = 2 /\
    0 <= tokens t'.
Proof.
  eexists _, _. split; [reflexivity|].
  destruct (counters_accumulate
              [Call_add_nodes 0 (Items [DocData sample_doc; QueryData "q1"]);
               Call_delete 1;
               Call_add_nodes 2 (Item (DocData sample_doc))]
              root_only sample_tree _ _ eq_refl)
    as (_ & Hnum & Htok & _).
  split; [exact (Hnum char_tokens 0%nat default_model eq_refl) | exact Htok].
Defined.

(** Calls on nodes of the store run to their end. *)
Lemma exec_is_Some (st : heap * Tree) (c : call) :
  is_Some (exec st c) <->
  is_Some (st.1 !! match c with
                   | Call_add_nodes parent _ => parent
                   | Call_delete node => node
                   end).
Proof.
  destruct st as [h t], c as [parent dataset|node]; simpl.
  - apply add_nodes_is_Some.
  - rewrite <- delete_is_Some. destruct (delete h node); simpl;
      split; intros [? ?]; try discriminate; eauto.
Qed.

(** ** Sequences of calls: the children and the deque *)

Lemma occurrences_app (c : ref) (d1 d2 : list ref) :
  occurrences c (d1 ++ d2) = (occurrences c d1 + occurrences c d2)%nat.
Proof. apply count_occ_app. Qed.

Lemma occurrences_rev (c : ref) (d : list ref) :
  occurrences c (rev d) = occurrences c d.
Proof.
  unfold occurrences. induction d as [|x d IH]; [reflexivity|].
  simpl rev. rewrite count_occ_app, IH. simpl.
  destruct (Nat.eq_dec x c); lia.
Qed.

Lemma occurrences_elem_of (c : ref) (d : list ref) :
  c ∈ d -> (1 <= occurrences c d)%nat.
Proof.
  intros Hc. apply list_elem_of_In in Hc.
  apply (count_occ_In Nat.eq_dec) in Hc. unfold occurrences. lia.
Qed.

Lemma children_grow_refl h : children_grow h h.
Proof. intros n nd Hn. by exists nd. Qed.

Lemma children_grow_trans h1 h2 h3 :
  children_grow h1 h2 -> children_grow h2 h3 -> children_grow h1 h3.
Proof.
  intros H12 H23 n nd Hn.
  destruct (H12 _ _ Hn) as (nd2 & Hn2 & Hp2).
  destruct (H23 _ _ Hn2) as (nd3 & Hn3 & Hp3).
  exists nd3. split; [exact Hn3|]. by etrans.
Qed.

Lemma heap_after_add_grow h parent nd items :
  h !! parent = Some nd ->
  children_grow h (heap_after_add h parent nd items).
Proof.
  intros Hp n nd0 Hn. destruct (decide (n = parent)) as [->|Hne].
  - rewrite Hp in Hn. injection Hn as <-.
    eexists. split; [by apply heap_after_add_self|]. simpl.
    by apply prefix_app_r.
  - exists nd0. split; [|done].
    rewrite heap_after_add_old; [done | done |].
    by eapply lookup_lt_Some.
Qed.

Lemma delete_grow h node h' :
  delete h node = Some h' -> children_grow h h'.
Proof.
  intros Hdel n nd Hn. rewrite (delete_lookup _ _ _ n Hdel), Hn.
  destruct (decide (n = node)); eexists; (split; [reflexivity|]); done.
Qed.

Lemma exec_grow (st st' : heap * Tree) (c : call) :
  exec st c = Some st' ->
  children_grow st.1 st'.1 /\ leaf_nodes_grow st.2 st'.2.
Proof.
  destruct st as [h t], st' as [h' t'], c as [parent dataset|node]; simpl.
  - intros Hadd.
    destruct (add_nodes_inv _ _ _ _ _ _ Hadd)
      as (nd & Hp & -> & _ & _ & _ & Hleaf).
    split; [by apply heap_after_add_grow|].
    intros c. destruct Hleaf as [-> | ->]; rewrite occurrences_app; lia.
  - intros Hdel. destruct (delete h node) as [h1|] eqn:Hd; [|discriminate].
    injection Hdel as <- <-.
    split; [by eapply delete_grow | by intros c].
Qed.

Lemma exec_all_grow (cs : list call) (st st' : heap * Tree) :
  exec_all st cs = Some st' ->
  children_grow st.1 st'.1 /\ leaf_nodes_grow st.2 st'.2.
Proof.
  revert st. induction cs as [|c cs IH]; intros st Hrun.
  - injection Hrun as <-. split; [apply children_grow_refl | by intros c].
  - simpl in Hrun. destruct (exec st c) as [st1|] eqn:Hc; [|discriminate].
    simpl in Hrun. destruct (exec_grow _ _ _ Hc) as [Hg1 Hl1].
    destruct (IH _ Hrun) as [Hg2 Hl2].
    split; [by eapply children_grow_trans|].
    intros c'. specialize (Hl1 c'). specialize (Hl2 c'). lia.
Qed.

(** One call pushes every child of [parent], the former ones too. *)
Lemma add_nodes_occurrences h t parent (dataset : dataset_arg) nd h' t'
    (c : ref) :
  h !! parent = Some nd ->
  add_nodes h t parent dataset = Some (h', t') ->
  occurrences c (leaf_nodes t')
  = (occurrences c (leaf_nodes t)
     + occurrences c (children_after h nd (normalize dataset)))%nat.
Proof.
  intros Hp Hadd.
  destruct (add_nodes_inv _ _ _ _ _ _ Hadd)
    as (nd0 & Hp0 & _ & _ & _ & _ & Hleaf).
  rewrite Hp in Hp0. injection Hp0 as <-.
  destruct Hleaf as [-> | ->]; rewrite occurrences_app;
    rewrite ?occurrences_rev; lia.
Qed.

(** C10.  Let [c] be a child of [parent] made by a call of [add_nodes]
    on [parent].  After any further calls of [add_nodes] and [delete],
    none of which takes a node out of the deque, a later call of
    [add_nodes] on [parent] succeeds and puts [c] in [leaf_nodes] once
    more: [c] then stands in [leaf_nodes] at least twice. *)
Theorem leaf_nodes_repeat h t parent (ds1 ds2 : dataset_arg) h1 t1
    (cs : list call) h2 t2 (c : ref) :
  add_nodes h t parent ds1 = Some (h1, t1) ->
  c ∈ fresh h (length (normalize ds1)) ->
  exec_all (h1, t1) cs = Some (h2, t2) ->
  exists h3 t3 nd2,
    add_nodes h2 t2 parent ds2 = Some (h3, t3) /\
    h2 !! parent = Some nd2 /\
    c ∈ child_nodes nd2 /\
    (1 <= occurrences c (leaf_nodes t2))%nat /\
    (occurrences c (leaf_nodes t2) < occurrences c (leaf_nodes t3))%nat /\
    (2 <= occurrences c (leaf_nodes t3))%nat.
Proof.
  intros Hadd1 Hc Hrun.
  destruct (add_nodes_inv _ _ _ _ _ _ Hadd1)
    as (nd & Hp & -> & _ & _ & _ & _).
  pose proof (add_nodes_occurrences _ _ _ _ _ _ _ c Hp Hadd1) as Hocc1.
  assert (Hin1 : c ∈ children_after h nd (normalize ds1)).
  { unfold children_after. apply elem_of_app. by right. }
  pose proof (occurrences_elem_of _ _ Hin1) as Hone.
  destruct (exec_all_grow _ _ _ Hrun) as [Hgrow Hleaf]. simpl in *.
  destruct (Hgrow parent _ (heap_after_add_self _ _ _ _ Hp))
    as (nd2 & Hp2 & Hpre). simpl in Hpre.
  assert (Hin2 : c ∈ child_nodes nd2).
  { destruct Hpre as [more ->]. apply elem_of_app. by left. }
  destruct (proj2 (add_nodes_is_Some h2 t2 parent ds2)) as [[h3 t3] Hadd2];
    [eauto|].
  exists h3, t3, nd2. split; [exact Hadd2|]. split; [exact Hp2|].
  split; [exact Hin2|].
  pose proof (add_nodes_occurrences _ _ _ _ _ _ _ c Hp2 Hadd2) as Hocc2.
  assert (Hin3 : c ∈ children_after h2 nd2 (normalize ds2)).
  { unfold children_after. apply elem_of_app. by left. }
  pose proof (occurrences_elem_of _ _ Hin3) as Hone3.
  specialize (Hleaf c). lia.
Qed.

Lemma leaf_nodes_repeat_witness :
  exists h3 t3 nd2,
    add_nodes root_with_two tree_after_first 0 (Items [QueryData "q2"])
      = Some (h3, t3) /\
    root_with_two !! 0%nat = Some nd2 /\
    1%nat ∈ child_nodes nd2 /\
    (1 <= occurrences 1 (leaf_nodes tree_after_first))%nat /\
    (occurrences 1 (leaf_nodes tree_after_first)
     < occurrences 1 (leaf_nodes t3))%nat /\
    (2 <= occurrences 1 (leaf_nodes t3))%nat.
Proof.
  apply (leaf_nodes_repeat root_only sample_tree 0
           (Items [DocData sample_doc; QueryData "q1"])
           (Items [QueryData "q2"])
           root_with_two tree_after_first [] root_with_two tree_after_first
           1%nat).
  - reflexivity.
  - simpl. apply list_elem_of_here.
  - reflexivity.
Defined.

Example leaf_nodes_repeat_sample :
  (st ← add_nodes root_only sample_tree 0
          (Items [DocData sample_doc; QueryData "q1"]);
   st' ← add_nodes st.1 st.2 0 (Items [QueryData "q2"]);
   Some (leaf_nodes st'.2))
  = Some [2; 1; 1; 2; 3]%nat.
Proof. reflexivity. Qed.

(** ** The trees that the calls build have finite depth *)

Lemma exec_wf (st st' : heap * Tree) (c : call) :
  heap_wf st.1 -> exec st c = Some st' ->
  heap_wf st'.1 /\ (length st.1 <= length st'.1)%nat /\ root st'.2 = root st.2.
Proof.
  destruct st as [h t], st' as [h' t'], c as [parent dataset|node]; simpl.
  - intros Hwf Hadd. unfold add_nodes in Hadd.
    destruct (add_child_nodes h parent (normalize dataset)) as [h1|] eqn:Hc;
      [|discriminate].
    simpl in Hadd. destruct (h1 !! parent); [|discriminate]. simpl in Hadd.
    pose proof (add_child_nodes_wf _ _ _ _ Hwf Hc) as Hwf1.
    destruct (proj1 (add_child_nodes_is_Some h parent (normalize dataset)))
      as [nd Hp]; [rewrite Hc; eauto|].
    rewrite (add_child_nodes_eq _ _ _ _ Hp) in Hc. injection Hc as <-.
    destruct (list_truthy _); injection Hadd as <- <-;
      (split; [exact Hwf1|]); rewrite heap_after_add_length;
      (split; [lia | reflexivity]).
  - intros Hwf Hdel. destruct (delete h node) as [h1|] eqn:Hd; [|discriminate].
    injection Hdel as <- <-.
    split; [by eapply delete_wf|].
    rewrite (delete_length _ _ _ Hd). split; [lia | reflexivity].
Qed.

Lemma exec_all_wf (cs : list call) (st st' : heap * Tree) :
  heap_wf st.1 -> exec_all st cs = Some st' ->
  heap_wf st'.1 /\ (length st.1 <= length st'.1)%nat /\ root st'.2 = root st.2.
Proof.
  revert st. induction cs as [|c cs IH]; intros st Hwf Hrun.
  - injection Hrun as <-. split; [exact Hwf|]. split; [lia | reflexivity].
  - simpl in Hrun. destruct (exec st c) as [st1|] eqn:Hc; [|discriminate].
    simpl in Hrun. destruct (exec_wf _ _ _ Hwf Hc) as (Hwf1 & Hlen1 & Hr1).
    destruct (IH _ Hwf1 Hrun) as (Hwf2 & Hlen2 & Hr2).
    split; [exact Hwf2|]. split; [lia | congruence].
Qed.

(** After any calls on a tree over a single root, the traversal from the
    root ends. *)
Lemma built_tree_finite (cs : list call) t h' t' :
  root t = 0%nat ->
  exec_all (root_only, t) cs = Some (h', t') ->
  finite_tree h' (root t').
Proof.
  intros Hroot Hrun.
  destruct (exec_all_wf cs (root_only, t) (h', t') root_only_wf Hrun)
    as (Hwf & Hlen & Hr).
  simpl in *. apply heap_wf_finite_tree; [exact Hwf|].
  apply lookup_lt_is_Some_2. rewrite Hr, Hroot. lia.
Qed.

(** * Further properties *)

(** ** Document.create: the document that is returned *)

Lemma prefix_of_append (a b : string) :
  substring 0 (String.length a) (a +:+ b) = a.
Proof.
  induction a as [|c a IH]; simpl.
  - by destruct b.
  - by rewrite IH.
Qed.

Section CreatedDocument.

Variable PAGE_CONTENT_KEYS : list string.
Variable MAX_CHUNK_SIZE : Z.

(** A document that [create] returns carries the selected content, cut,
    and the metadata that the constructor has validated. *)
Lemma create_inr (md : Metadata) (pc : option string) (d : Document) :
  create PAGE_CONTENT_KEYS MAX_CHUNK_SIZE md pc = inr d ->
  exists s,
    select_content PAGE_CONTENT_KEYS md pc = Some s /\
    PyStr.truthy s = true /\
    truncate MAX_CHUNK_SIZE (Some s) = Some (page_content d) /\
    validate_Metadata md = Some (metadata d).
Proof.
  intros Hd.
  pose proof (create_select PAGE_CONTENT_KEYS MAX_CHUNK_SIZE md pc) as Hc.
  destruct (select_content PAGE_CONTENT_KEYS md pc) as [s|]; [|congruence].
  destruct (PyStr.truthy s) eqn:Hs; [|congruence].
  destruct Hc as (c & Hcut & Hc). rewrite Hc in Hd.
  unfold Document_init in Hd.
  destruct (validate_Metadata md) as [md'|]; [|discriminate].
  injection Hd as <-. exists s. simpl. repeat split; assumption.
Qed.

(** X1.  A document that [create] returns has a non-empty
    [page_content]; the metadata given to [create] was valid, and the
    metadata of the document holds the fields of [Metadata] with the
    values given, and no other key. *)
Theorem create_content_nonempty (md : Metadata) (pc : option string)
    (d : Document) :
  create PAGE_CONTENT_KEYS MAX_CHUNK_SIZE md pc = inr d ->
  page_content d <> "" /\
  valid_Metadata md /\
  forall k,
    metadata d !! k = if decide (k ∈ Metadata_fields) then md !! k else None.
Proof.
  intros Hd. destruct (create_inr md pc d Hd) as (s & _ & Hs & Hcut & Hmd).
  split; [|by apply validate_Metadata_Some].
  pose proof (truncate_truthy MAX_CHUNK_SIZE (Some s)) as Ht.
  rewrite Hcut in Ht. simpl in Ht. rewrite Hs in Ht.
  intros Hnil. rewrite Hnil in Ht. discriminate.
Qed.

(** X2.  With a maximum that is a length, the content of a document that
    [create] returns has at most [MAX_CHUNK_SIZE] characters, or it has
    [MAX_CHUNK_SIZE + 3] and ends with the marker ["..."]. *)
Theorem create_content_bound (md : Metadata) (pc : option string)
    (d : Document) :
  0 <= MAX_CHUNK_SIZE ->
  create PAGE_CONTENT_KEYS MAX_CHUNK_SIZE md pc = inr d ->
  PyStr.len (page_content d) <= MAX_CHUNK_SIZE \/
  (PyStr.len (page_content d) = MAX_CHUNK_SIZE + 3 /\
   exists kept, page_content d = kept +:+ "...").
Proof.
  intros Hmax Hd.
  destruct (create_inr md pc d Hd) as (s & _ & Hs & Hcut & _).
  unfold truncate in Hcut. rewrite Hs in Hcut. cbn [andb] in Hcut.
  destruct (MAX_CHUNK_SIZE <? PyStr.len s) eqn:Hlt.
  - right. apply Z.ltb_lt in Hlt. injection Hcut as <-.
    unfold PyStr.slice_to.
    assert (Hneg : (MAX_CHUNK_SIZE <? 0) = false) by (apply Z.ltb_ge; lia).
    rewrite Hneg. split; [|eauto].
    unfold PyStr.len in *.
    rewrite PyStrFacts.length_append, PyStrFacts.length_prefix. simpl. lia.
  - left. apply Z.ltb_ge in Hlt. injection Hcut as <-. exact Hlt.
Qed.

(** X3.  With a maximum that is a length, [create] called again with the
    same metadata and, as the argument [page_content], the content of the
    document that it has returned, returns the same document: a content
    that has been cut is cut to itself. *)
Theorem create_again (md : Metadata) (pc : option string) (d : Document) :
  0 <= MAX_CHUNK_SIZE ->
  create PAGE_CONTENT_KEYS MAX_CHUNK_SIZE md pc = inr d ->
  create PAGE_CONTENT_KEYS MAX_CHUNK_SIZE md (Some (page_content d)) = inr d.
Proof.
  intros Hmax Hd.
  destruct (create_inr md pc d Hd) as (s & _ & Hs & Hcut & Hmd).
  assert (Hc : PyStr.truthy (page_content d) = true).
  { pose proof (truncate_truthy MAX_CHUNK_SIZE (Some s)) as Ht.
    rewrite Hcut in Ht. simpl in Ht. by rewrite Hs in Ht. }
  assert (Hfix : truncate MAX_CHUNK_SIZE (Some (page_content d))
                 = Some (page_content d)).
  { unfold truncate in *. rewrite Hs in Hcut. rewrite Hc. cbn [andb] in *.
    destruct (MAX_CHUNK_SIZE <? PyStr.len s) eqn:Hlt.
    - apply Z.ltb_lt in Hlt. injection Hcut as Hcut.
      unfold PyStr.slice_to in Hcut.
      assert (Hneg : (MAX_CHUNK_SIZE <? 0) = false) by (apply Z.ltb_ge; lia).
      rewrite Hneg in Hcut.
      assert (Hk : String.length (substring 0 (Z.to_nat MAX_CHUNK_SIZE) s)
                   = Z.to_nat MAX_CHUNK_SIZE).
      { rewrite PyStrFacts.length_prefix. unfold PyStr.len in Hlt. lia. }
      rewrite <- Hcut.
      assert (Hlong : (MAX_CHUNK_SIZE <?
                PyStr.len (substring 0 (Z.to_nat MAX_CHUNK_SIZE) s +:+ "..."))
                = true).
      { apply Z.ltb_lt. unfold PyStr.len.
        rewrite PyStrFacts.length_append, Hk. simpl. lia. }
      rewrite Hlong. unfold PyStr.slice_to. rewrite Hneg.
      rewrite <- Hk at 1. by rewrite prefix_of_append.
    - injection Hcut as <-. by rewrite Hlt. }
  destruct d as [md0 c]. cbn [page_content metadata] in *.
  unfold create, select_content. cbn [arg_truthy]. rewrite Hc. cbn [negb].
  rewrite Hfix. cbn [arg_truthy]. rewrite Hc.
  unfold Document_init. by rewrite Hmd.
Qed.

(** X4.  The fields of the metadata whose names are not in
    [PAGE_CONTENT_KEYS] have no part in the content nor in the failure
    of the assertion: two metadata that the constructor both accepts, or
    both refuses, and that have the same values at the keys give the
    same content, or both the same error. *)
Theorem create_reads_keys_only (md md' : Metadata) (pc : option string) :
  (forall k, k ∈ PAGE_CONTENT_KEYS -> md !! k = md' !! k) ->
  (valid_Metadata md <-> valid_Metadata md') ->
  match create PAGE_CONTENT_KEYS MAX_CHUNK_SIZE md pc,
        create PAGE_CONTENT_KEYS MAX_CHUNK_SIZE md' pc with
  | inr d, inr d' => page_content d = page_content d'
  | inl e, inl e' => e = e'
  | _, _ => False
  end.
Proof.
  intros Hkeys Hvalid.
  assert (Hsel : select_content PAGE_CONTENT_KEYS md pc
                 = select_content PAGE_CONTENT_KEYS md' pc).
  { unfold select_content. destruct (negb (arg_truthy pc)); [|reflexivity].
    revert Hkeys. generalize PAGE_CONTENT_KEYS as keys.
    induction keys as [|k keys IH]; intros Hkeys; [reflexivity|].
    simpl. rewrite <- (Hkeys k) by apply list_elem_of_here.
    rewrite IH; [reflexivity|].
    intros k' Hk'. apply Hkeys. by apply list_elem_of_further. }
  unfold create. rewrite <- Hsel.
  destruct (arg_truthy _); [|reflexivity].
  destruct (truncate MAX_CHUNK_SIZE _) as [c|]; [|reflexivity].
  unfold Document_init.
  destruct (validate_Metadata md) as [m|] eqn:Hm,
           (validate_Metadata md') as [m'|] eqn:Hm'; try reflexivity.
  - apply validate_Metadata_Some in Hm as [Hv _].
    apply validate_Metadata_None in Hm'. tauto.
  - apply validate_Metadata_Some in Hm' as [Hv _].
    apply validate_Metadata_None in Hm. tauto.
Qed.

End CreatedDocument.

Lemma create_content_nonempty_witness :
  page_content cut_doc <> "" /\
  valid_Metadata sample_md /\
  forall k,
    metadata cut_doc !! k
    = if decide (k ∈ Metadata_fields) then sample_md !! k else None.
Proof.
  exact (create_content_nonempty sample_keys 3 sample_md None cut_doc eq_refl).
Defined.

Lemma create_content_bound_witness :
  PyStr.len (page_content cut_doc) <= 3 \/
  (PyStr.len (page_content cut_doc) = 3 + 3 /\
   exists kept, page_content cut_doc = kept +:+ "...").
Proof.
  apply (create_content_bound sample_keys 3 sample_md None cut_doc).
  - lia.
  - reflexivity.
Defined.

Lemma create_again_witness :
  create sample_keys 3 sample_md (Some (page_content cut_doc)) = inr cut_doc.
Proof.
  apply (create_again sample_keys 3 sample_md None cut_doc).
  - lia.
  - reflexivity.
Defined.

Lemma sample_md_web_valid : valid_Metadata (<["source" := "web"]> sample_md).
Proof.
  by apply (validate_Metadata_Some (<["source" := "web"]> sample_md)
              (<["source" := "web"]> sample_md)).
Qed.

Lemma create_reads_keys_only_witness :
  match create sample_keys 3 sample_md None,
        create sample_keys 3 (<["source" := "web"]> sample_md) None with
  | inr d, inr d' => page_content d = page_content d'
  | inl e, inl e' => e = e'
  | _, _ => False
  end.
Proof.
  apply (create_reads_keys_only sample_keys 3 sample_md
           (<["source" := "web"]> sample_md) None).
  - intros k Hk. unfold sample_keys in Hk.
    apply elem_of_cons in Hk as [->|Hk]; [reflexivity|].
    apply elem_of_cons in Hk as [->|Hk]; [reflexivity|].
    by apply elem_of_nil in Hk.
  - split; intros _; [exact sample_md_web_valid | exact sample_md_valid].
Defined.

(** ** Node.add_child_nodes: what the call changes *)

Lemma with_child_nodes_same nd : with_child_nodes nd (child_nodes nd) = nd.
Proof. by destruct nd. Qed.

(** X5.  On a receiver of the store, [add_child_nodes] succeeds and adds
    one node per item at the end of the store: the node of the [i]-th
    item holds it, has the receiver as its parent, no children and the
    flag [deleted] unset.  The receiver keeps its data, parent and flag,
    and gets the new nodes at the end of its children; no other node
    changes. *)
Theorem add_child_nodes_frame h self nd items :
  h !! self = Some nd ->
  exists h',
    add_child_nodes h self items = Some h' /\
    length h' = (length h + length items)%nat /\
    h' !! self =
      Some (mkNode (data nd) (parent nd)
                   (child_nodes nd ++ fresh h (length items)) (deleted nd)) /\
    (forall (i : nat) d,
       items !! i = Some d ->
       h' !! (length h + i)%nat = Some (mkNode d (Some self) [] false)) /\
    (forall n, n <> self -> (n < length h)%nat -> h' !! n = h !! n).
Proof.
  intros Hself. exists (heap_after_add h self nd items).
  split; [by apply add_child_nodes_eq|].
  split; [apply heap_after_add_length|].
  split; [by apply heap_after_add_self|].
  split.
  - intros i d Hd. by apply heap_after_add_new.
  - intros n Hne Hlt. by apply heap_after_add_old.
Qed.

Lemma add_child_nodes_frame_witness :
  exists h',
    add_child_nodes root_only 0 [DocData sample_doc; QueryData "q1"]
      = Some h' /\
    length h' = (1 + 2)%nat /\
    h' !! 0%nat = Some (mkNode (QueryData "root") None ([] ++ [1; 2]%nat) false) /\
    (forall (i : nat) d,
       [DocData sample_doc; QueryData "q1"] !! i = Some d ->
       h' !! (1 + i)%nat = Some (mkNode d (Some 0%nat) [] false)) /\
    (forall n, n <> 0%nat -> (n < 1)%nat -> h' !! n = root_only !! n).
Proof.
  exact (add_child_nodes_frame root_only 0
           (mkNode (QueryData "root") None [] false)
           [DocData sample_doc; QueryData "q1"] eq_refl).
Defined.

(** X6.  [add_child_nodes] with an empty dataset leaves the store as it
    is. *)
Theorem add_child_nodes_empty h self :
  is_Some (h !! self) ->
  add_child_nodes h self [] = Some h.
Proof.
  intros [nd Hself]. rewrite (add_child_nodes_eq _ _ _ _ Hself).
  unfold heap_after_add. simpl. rewrite !app_nil_r.
  rewrite with_child_nodes_same. by rewrite list_insert_id.
Qed.

Lemma add_child_nodes_empty_witness :
  add_child_nodes sample_heap 1 [] = Some sample_heap.
Proof.
  apply (add_child_nodes_empty sample_heap 1). by eexists.
Defined.

(** X7.  Two calls of [add_child_nodes] on the same receiver, one after
    the other, give the store of one call with the two datasets
    concatenated. *)
Theorem add_child_nodes_twice h self (items1 items2 : list NodeDataType) h1 :
  add_child_nodes h self items1 = Some h1 ->
  add_child_nodes h1 self items2 = add_child_nodes h self (items1 ++ items2).
Proof.
  intros Hadd.
  destruct (proj1 (add_child_nodes_is_Some h self items1)) as [nd Hself];
    [eauto|].
  rewrite (add_child_nodes_eq _ _ _ _ Hself) in Hadd. injection Hadd as <-.
  pose proof (lookup_lt_Some _ _ _ Hself) as Hlt.
  rewrite (add_child_nodes_eq _ _ _ _ (heap_after_add_self _ _ _ items1 Hself)).
  rewrite (add_child_nodes_eq _ _ _ _ Hself). f_equal.
  unfold heap_after_add at 1 3. rewrite heap_after_add_length.
  unfold heap_after_add, with_child_nodes. simpl.
  rewrite length_app, seq_app, fmap_app, !app_assoc.
  rewrite <- (insert_app_l _ ((fun d => Node_init d self) <$> items2))
    by (rewrite length_app; lia).
  by rewrite list_insert_insert_eq.
Qed.

Lemma add_child_nodes_twice_witness :
  add_child_nodes root_with_two 0 [QueryData "q2"]
  = add_child_nodes root_only 0
      ([DocData sample_doc; QueryData "q1"] ++ [QueryData "q2"]).
Proof.
  exact (add_child_nodes_twice root_only 0
           [DocData sample_doc; QueryData "q1"] [QueryData "q2"]
           root_with_two eq_refl).
Defined.

(** ** Node.delete: what the call changes *)

(** X8.  [delete] sets the flag of its receiver and nothing else: the
    store keeps its size, the receiver keeps its data, parent and
    children, and every other node, the descendants of the receiver among
    them, is left as it is. *)
Theorem delete_frame h m h' :
  delete h m = Some h' ->
  length h' = length h /\
  (exists nd,
     h !! m = Some nd /\
     h' !! m = Some (mkNode (data nd) (parent nd) (child_nodes nd) true)) /\
  (forall n, n <> m -> h' !! n = h !! n).
Proof.
  intros Hdel. split; [by eapply delete_length|]. split.
  - destruct (proj1 (delete_is_Some h m)) as [nd Hm]; [eauto|].
    exists nd. split; [exact Hm|].
    rewrite (delete_lookup _ _ _ m Hdel), decide_True by done.
    by rewrite Hm.
  - intros n Hne. rewrite (delete_lookup _ _ _ n Hdel).
    by rewrite decide_False.
Qed.

Lemma delete_frame_witness :
  exists h',
    delete sample_heap 1 = Some h' /\
    length h' = length sample_heap /\
    (exists nd,
       sample_heap !! 1%nat = Some nd /\
       h' !! 1%nat
       = Some (mkNode (data nd) (parent nd) (child_nodes nd) true)) /\
    (forall n, n <> 1%nat -> h' !! n = sample_heap !! n).
Proof.
  eexists. split; [reflexivity|].
  exact (delete_frame sample_heap 1 _ eq_refl).
Defined.

(** X9.  Deleting a node twice is deleting it once. *)
Theorem delete_twice h m h' :
  delete h m = Some h' -> delete h' m = Some h'.
Proof.
  intros Hdel. unfold delete in *.
  destruct (h !! m) as [nd|] eqn:Hm; [|discriminate].
  injection Hdel as <-. pose proof (lookup_lt_Some _ _ _ Hm) as Hlt.
  rewrite list_lookup_insert_eq by done. simpl.
  by rewrite list_insert_insert_eq.
Qed.

Lemma delete_twice_witness :
  exists h', delete sample_heap 3 = Some h' /\ delete h' 3 = Some h'.
Proof.
  eexists. split; [reflexivity|].
  exact (delete_twice sample_heap 3 _ eq_refl).
Defined.

(** X10.  Two deletions give the same store in either order. *)
Theorem delete_swap h a b h1 h2 :
  delete h a = Some h1 ->
  delete h1 b = Some h2 ->
  exists h1', delete h b = Some h1' /\ delete h1' a = Some h2.
Proof.
  intros Ha Hb.
  destruct (decide (a = b)) as [->|Hne].
  { exists h1. split; [exact Ha | exact Hb]. }
  unfold delete in *.
  destruct (h !! a) as [na|] eqn:Hla; [|discriminate].
  injection Ha as <-.
  rewrite list_lookup_insert_ne in Hb by done.
  destruct (h !! b) as [nb|] eqn:Hlb; [|discriminate].
  injection Hb as <-. simpl.
  eexists. split; [reflexivity|].
  rewrite list_lookup_insert_ne by done. rewrite Hla. simpl.
  by rewrite list_insert_insert_ne.
Qed.

Lemma delete_swap_witness :
  exists h2 h1',
    (h1 ← delete sample_heap 1; delete h1 3) = Some h2 /\
    delete sample_heap 3 = Some h1' /\ delete h1' 1 = Some h2.
Proof.
  destruct (delete_swap sample_heap 1 3 _ _ eq_refl eq_refl)
    as (h1' & H1 & H2).
  eexists _, h1'. split; [reflexivity|]. split; assumption.
Defined.

(** ** Node.all_nodes: the nodes that are returned *)

Lemma elem_of_concat (x : ref) (ls : list (list ref)) :
  x ∈ concat ls <-> exists l, x ∈ l /\ l ∈ ls.
Proof.
  induction ls as [|l ls IH]; simpl.
  - split; [by intros ?%elem_of_nil|]. by intros (l & _ & ?%elem_of_nil).
  - rewrite elem_of_app, IH. split.
    + intros [Hx | (l' & Hx & Hl')].
      * exists l. split; [exact Hx | apply list_elem_of_here].
      * exists l'. split; [exact Hx | by apply list_elem_of_further].
    + intros (l' & Hx & Hl'). apply elem_of_cons in Hl' as [->|Hl'].
      * by left.
      * right. by exists l'.
Qed.

Lemma all_nodes_child_results (fuel : nat) h n nd (nodes : list ref) :
  all_nodes (S fuel) h n = Some nodes ->
  h !! n = Some nd ->
  exists subs,
    Forall2 (fun c sub => all_nodes fuel h c = Some sub) (child_nodes nd) subs /\
    nodes = n :: concat subs.
Proof.
  intros Hret Hn. rewrite all_nodes_step, Hn in Hret. simpl in Hret.
  destruct (mapM (all_nodes fuel h) (child_nodes nd)) as [subs|] eqn:Hsubs;
    [|discriminate].
  injection Hret as <-. exists subs. split; [|reflexivity].
  by apply mapM_Some.
Qed.

Lemma all_nodes_is_node (fuel : nat) h n (nodes : list ref) :
  all_nodes fuel h n = Some nodes -> is_Some (h !! n).
Proof.
  destruct fuel as [|fuel]; [discriminate|]. rewrite all_nodes_step.
  destruct (h !! n); [eauto | discriminate].
Qed.

Lemma all_nodes_reach (fuel : nat) h n (nodes : list ref) (m : ref) :
  all_nodes fuel h n = Some nodes ->
  m ∈ nodes -> rtc (child_of h) n m.
Proof.
  revert n nodes. induction fuel as [|fuel IH]; intros n nodes Hret Hm;
    [discriminate|].
  destruct (all_nodes_is_node _ _ _ _ Hret) as [nd Hn].
  destruct (all_nodes_child_results _ _ _ _ _ Hret Hn) as (subs & Hsubs & ->).
  apply elem_of_cons in Hm as [->|Hm]; [apply rtc_refl|].
  apply elem_of_concat in Hm as (sub & Hm & Hsub).
  apply list_elem_of_lookup in Hsub as [i Hi].
  destruct (Forall2_lookup_r _ _ _ _ _ Hsubs Hi) as (c & Hc & Hcs).
  apply rtc_l with c.
  - exists nd. split; [exact Hn|]. by eapply list_elem_of_lookup_2.
  - by eapply IH.
Qed.

Lemma all_nodes_closed (fuel : nat) h n (nodes : list ref) (m : ref) :
  rtc (child_of h) n m ->
  all_nodes fuel h n = Some nodes ->
  m ∈ nodes.
Proof.
  intros Hreach. revert fuel nodes.
  induction Hreach as [n|n c m (nd & Hn & Hc) _ IH]; intros fuel nodes Hret.
  - destruct fuel as [|fuel]; [discriminate|].
    destruct (all_nodes_is_node _ _ _ _ Hret) as [nd Hn].
    destruct (all_nodes_child_results _ _ _ _ _ Hret Hn) as (subs & _ & ->).
    apply list_elem_of_here.
  - destruct fuel as [|fuel]; [discriminate|].
    destruct (all_nodes_child_results _ _ _ _ _ Hret Hn) as (subs & Hsubs & ->).
    apply list_elem_of_further.
    apply list_elem_of_lookup in Hc as [i Hi].
    destruct (Forall2_lookup_l _ _ _ _ _ Hsubs Hi) as (sub & Hsub & Hcs).
    apply elem_of_concat. exists sub.
    split; [by eapply IH | by eapply list_elem_of_lookup_2].
Qed.

(** X11.  The nodes that [n.all_nodes()] returns are [n] and its
    descendants, and no other node: a node is in the result exactly when
    a chain of [child_nodes] links leads from [n] to it.  The first node
    of the result is [n]. *)
Theorem all_nodes_descendants h n (nodes : list ref) :
  all_nodes_returns h n nodes ->
  head nodes = Some n /\
  forall m, m ∈ nodes <-> rtc (child_of h) n m.
Proof.
  intros [fuel Hret]. split.
  - destruct fuel as [|fuel]; [discriminate|].
    destruct (all_nodes_is_node _ _ _ _ Hret) as [nd Hn].
    by destruct (all_nodes_child_results _ _ _ _ _ Hret Hn) as (subs & _ & ->).
  - intros m. split.
    + by eapply all_nodes_reach.
    + intros Hreach. by eapply all_nodes_closed.
Qed.

Lemma all_nodes_descendants_witness :
  head [0; 1; 3; 2]%nat = Some 0%nat /\
  forall m, m ∈ [0; 1; 3; 2]%nat <-> rtc (child_of sample_heap) 0%nat m.
Proof.
  apply (all_nodes_descendants sample_heap 0 [0; 1; 3; 2]%nat).
  by exists 3%nat.
Defined.

(** ** Node.all_documents: the data that are returned *)

(** X12.  Every item that [n.all_documents()] returns is a Document, never
    a Query, and there are at most as many items as [n.all_nodes()]
    returns nodes. *)
Theorem all_documents_typed h n (docs : list NodeDataType) :
  all_documents_returns h n docs ->
  Forall (fun d => isinstance_Document d = true) docs /\
  exists nodes,
    all_nodes_returns h n nodes /\ (length docs <= length nodes)%nat.
Proof.
  intros [fuel Hdocs]. unfold all_documents in Hdocs.
  destruct (all_nodes fuel h n) as [nodes|] eqn:Hret; [|discriminate].
  injection Hdocs as <-.
  split; [apply select_documents_are_documents|].
  exists nodes. split; [by exists fuel|].
  rewrite <- (Forall2_length _ _ _ (select_documents_filter h nodes)).
  apply length_filter.
Qed.

Lemma all_documents_typed_witness :
  Forall (fun d => isinstance_Document d = true)
         [DocData sample_doc; DocData (mkDocument ∅ "world")] /\
  exists nodes,
    all_nodes_returns sample_heap 0 nodes /\
    (length [DocData sample_doc; DocData (mkDocument ∅ "world")]
     <= length nodes)%nat.
Proof.
  apply (all_documents_typed sample_heap 0).
  by exists 3%nat.
Defined.

Lemma select_documents_skip h m (nodes : list ref) :
  live_document_at h m = false ->
  select_documents h (filter (fun r => r <> m) nodes)
  = select_documents h nodes.
Proof.
  intros Hm. induction nodes as [|r nodes IH]; [reflexivity|].
  destruct (decide (r = m)) as [->|Hne].
  - rewrite filter_cons_False by (intros Hr; by apply Hr).
    simpl. unfold live_document_at in Hm.
    destruct (h !! m) as [nd|]; [|exact IH]. by rewrite Hm.
  - rewrite filter_cons_True by done. simpl. by rewrite IH.
Qed.

(** X13.  Deleting a node that is no live document, a Query node or a
    Document node deleted before, changes the result of no call of
    [all_documents]. *)
Theorem delete_not_live_same_documents (fuel : nat) h m h' n :
  delete h m = Some h' ->
  live_document_at h m = false ->
  all_documents fuel h' n = all_documents fuel h n.
Proof.
  intros Hdel Hm. unfold all_documents.
  rewrite (all_nodes_delete _ _ _ _ _ Hdel).
  destruct (all_nodes fuel h n) as [nodes|]; [|reflexivity]. simpl.
  rewrite (select_documents_delete _ _ _ _ Hdel).
  by rewrite select_documents_skip.
Qed.

Lemma delete_not_live_same_documents_witness :
  exists h',
    delete sample_heap 2 = Some h' /\
    all_documents 3 h' 0 = all_documents 3 sample_heap 0.
Proof.
  eexists. split; [reflexivity|].
  exact (delete_not_live_same_documents 3 sample_heap 2 _ 0 eq_refl eq_refl).
Defined.

(** ** Tree.add_nodes: empty datasets, and the tokens of a history *)

(** X14.  [add_nodes] with an empty list, or with an empty string as the
    single item, makes no node and leaves the store and the counters as
    they are, but it still appends the children that [parent] has to the
    right end of [leaf_nodes]. *)
Theorem add_nodes_empty h t parent (dataset : dataset_arg) nd :
  h !! parent = Some nd ->
  dataset = Items [] \/ dataset = Item (QueryData "") ->
  add_nodes h t parent dataset
  = Some (h, mkTree (root t) (tokens t) (leaf_nodes t ++ child_nodes nd)
                    (doc_node_num t) (embedding_model t) (_encoding t)).
Proof.
  intros Hp Hempty.
  assert (Hnorm : normalize dataset = []) by (by destruct Hempty as [-> | ->]).
  rewrite (add_nodes_queries _ _ _ _ _ Hp) by (by rewrite Hnorm).
  rewrite Hnorm. unfold heap_after_add, children_after. simpl.
  rewrite !app_nil_r, with_child_nodes_same. by rewrite list_insert_id.
Qed.

Lemma add_nodes_empty_witness :
  add_nodes root_with_two tree_after_first 0 (Items [])
  = Some (root_with_two,
          mkTree 0 5 ([2; 1] ++ [1; 2])%nat 1 default_model
                 (char_tokens default_model)).
Proof.
  apply (add_nodes_empty root_with_two tree_after_first 0 (Items [])
           (mkNode (QueryData "root") None [1; 2]%nat false)).
  - reflexivity.
  - by left.
Defined.

Lemma exec_fields (st st' : heap * Tree) (c : call) :
  exec st c = Some st' ->
  root st'.2 = root st.2 /\
  embedding_model st'.2 = embedding_model st.2 /\
  _encoding st'.2 = _encoding st.2 /\
  tokens st'.2 = tokens st.2 + tokens_of_call (_encoding st.2) c.
Proof.
  destruct st as [h t], st' as [h' t'], c as [parent dataset|node]; simpl.
  - intros Hadd.
    destruct (proj1 (add_nodes_is_Some h t parent dataset)) as [nd Hp];
      [eauto|].
    destruct (count_documents dataset) as [|k] eqn:Hk.
    + rewrite (add_nodes_queries _ _ _ _ _ Hp) in Hadd
        by (by apply has_no_documents).
      injection Hadd as <- <-. simpl. repeat split. lia.
    + rewrite (add_nodes_documents _ _ _ _ _ Hp) in Hadd
        by (apply has_documents; lia).
      injection Hadd as <- <-. simpl. rewrite join_dataset. repeat split.
  - intros Hdel. destruct (delete h node); [|discriminate].
    injection Hdel as <- <-. repeat split. lia.
Qed.

(** X15.  After a sequence of calls that runs to its end, the tree has
    the root, the model name and the encoder that it had, and [tokens]
    has grown by the sum, over the calls of [add_nodes] that passed
    Documents, of the number of tokens that the encoder gives for the
    contents of the Documents of that call, written one after the other
    in the order of the dataset. *)
Theorem tokens_accumulate (cs : list call) h t h' t' :
  exec_all (h, t) cs = Some (h', t') ->
  root t' = root t /\
  embedding_model t' = embedding_model t /\
  _encoding t' = _encoding t /\
  tokens t' = tokens t + tokens_passed (_encoding t) cs.
Proof.
  revert h t. induction cs as [|c cs IH]; intros h t Hrun.
  - injection Hrun as <- <-. simpl. repeat split. lia.
  - simpl in Hrun. destruct (exec (h, t) c) as [[h1 t1]|] eqn:Hc;
      [|discriminate].
    simpl in Hrun. destruct (IH _ _ Hrun) as (Hr & Hm & He & Ht).
    destruct (exec_fields _ _ _ Hc) as (Hr1 & Hm1 & He1 & Ht1).
    simpl in *. rewrite He1 in Ht.
    repeat split; [congruence | congruence | congruence | lia].
Qed.

Lemma tokens_accumulate_witness :
  exists h' t',
    exec_all (root_only, sample_tree) two_document_calls = Some (h', t') /\
    root t' = 0%nat /\
    embedding_model t' = default_model /\
    _encoding t' = char_tokens default_model /\
    tokens t' =
      0 + (Z.of_nat (length (char_tokens default_model "helloworld"))
           + (0 + (Z.of_nat (length (char_tokens default_model "world"))
                   + 0))).
Proof.
  eexists _, _. split; [reflexivity|].
  exact (tokens_accumulate two_document_calls root_only sample_tree _ _
           eq_refl).
Defined.

(** ** Sequences of calls: what happens to a node *)

Lemma node_kept_refl nd : node_kept nd nd.
Proof. repeat split; done. Qed.

Lemma node_kept_trans nd1 nd2 nd3 :
  node_kept nd1 nd2 -> node_kept nd2 nd3 -> node_kept nd1 nd3.
Proof.
  intros (Hd1 & Hp1 & Hc1 & Hx1) (Hd2 & Hp2 & Hc2 & Hx2).
  repeat split; [congruence | congruence | by etrans | auto].
Qed.

Lemma exec_node_kept (st st' : heap * Tree) (c : call) n nd :
  exec st c = Some st' ->
  st.1 !! n = Some nd ->
  exists nd', st'.1 !! n = Some nd' /\ node_kept nd nd'.
Proof.
  destruct st as [h t], st' as [h' t'], c as [parent dataset|node]; simpl.
  - intros Hadd Hn.
    destruct (add_nodes_inv _ _ _ _ _ _ Hadd) as (pn & Hp & -> & _).
    destruct (decide (n = parent)) as [->|Hne].
    + rewrite Hp in Hn. injection Hn as <-.
      eexists. split; [by apply heap_after_add_self|].
      repeat split; simpl; [by apply prefix_app_r | done].
    + exists nd. split; [|apply node_kept_refl].
      rewrite heap_after_add_old; [done | done |].
      by eapply lookup_lt_Some.
  - intros Hdel Hn. destruct (delete h node) as [h1|] eqn:Hd; [|discriminate].
    injection Hdel as <- <-.
    rewrite (delete_lookup _ _ _ n Hd), Hn.
    destruct (decide (n = node)); eexists; (split; [reflexivity|]).
    + repeat split; done.
    + apply node_kept_refl.
Qed.

Lemma exec_all_node_kept (cs : list call) (st st' : heap * Tree) n nd :
  exec_all st cs = Some st' ->
  st.1 !! n = Some nd ->
  exists nd', st'.1 !! n = Some nd' /\ node_kept nd nd'.
Proof.
  revert st nd. induction cs as [|c cs IH]; intros st nd Hrun Hn.
  - injection Hrun as <-. exists nd. split; [exact Hn|].
    apply node_kept_refl.
  - simpl in Hrun. destruct (exec st c) as [st1|] eqn:Hc; [|discriminate].
    simpl in Hrun.
    destruct (exec_node_kept _ _ _ _ _ Hc Hn) as (nd1 & Hn1 & Hk1).
    destruct (IH _ _ Hrun Hn1) as (nd' & Hn' & Hk').
    exists nd'. split; [exact Hn'|].
    exact (node_kept_trans _ _ _ Hk1 Hk').
Qed.

(** X16.  No call takes a node out of the store, gives it another parent
    or other data, removes or reorders children, or clears the flag
    [deleted]: after any sequence of calls, a node of the store before is
    a node of the store after, with the same data and parent, with its
    former children at the start of its list of children, and deleted if
    it was deleted. *)
Theorem nodes_kept (cs : list call) h t h' t' n nd :
  exec_all (h, t) cs = Some (h', t') ->
  h !! n = Some nd ->
  exists nd',
    h' !! n = Some nd' /\
    data nd' = data nd /\
    parent nd' = parent nd /\
    child_nodes nd `prefix_of` child_nodes nd' /\
    (deleted nd = true -> deleted nd' = true).
Proof.
  intros Hrun Hn.
  exact (exec_all_node_kept cs (h, t) (h', t') n nd Hrun Hn).
Qed.

Lemma nodes_kept_witness :
  exists h' t' nd',
    exec_all (root_with_two, tree_after_first)
      [Call_delete 1; Call_add_nodes 0 (Items [QueryData "q2"])]
      = Some (h', t') /\
    h' !! 0%nat = Some nd' /\
    data nd' = QueryData "root" /\
    parent nd' = None /\
    [1; 2]%nat `prefix_of` child_nodes nd' /\
    (false = true -> deleted nd' = true).
Proof.
  destruct (nodes_kept
              [Call_delete 1; Call_add_nodes 0 (Items [QueryData "q2"])]
              root_with_two tree_after_first _ _ 0
              (mkNode (QueryData "root") None [1; 2]%nat false)
              eq_refl eq_refl)
    as (nd' & H).
  eexists _, _, nd'. split; [reflexivity | exact H].
Defined.

(** ** Trees built from a single root: the deque and the links *)

Lemma fresh_root_wf (d : NodeDataType) : heap_wf (fresh_root d).
Proof.
  intros n nd Hn. destruct n as [|n]; simpl in Hn; [|discriminate].
  injection Hn as <-. constructor.
Qed.

Lemma heap_after_add_kept h parent pn items n nd :
  h !! parent = Some pn ->
  h !! n = Some nd ->
  exists nd',
    heap_after_add h parent pn items !! n = Some nd' /\ node_kept nd nd'.
Proof.
  intros Hp Hn. destruct (decide (n = parent)) as [->|Hne].
  - rewrite Hp in Hn. injection Hn as <-.
    eexists. split; [by apply heap_after_add_self|].
    repeat split; simpl; [by apply prefix_app_r | done].
  - exists nd. split; [|apply node_kept_refl].
    rewrite heap_after_add_old; [done | done |].
    by eapply lookup_lt_Some.
Qed.

Lemma child_of_grow h h' (p c : ref) :
  children_grow h h' -> child_of h p c -> child_of h' p c.
Proof.
  intros Hgrow (nd & Hp & Hc).
  destruct (Hgrow _ _ Hp) as (nd' & Hp' & [more Hmore]).
  exists nd'. split; [exact Hp'|]. rewrite Hmore. apply elem_of_app. by left.
Qed.

Lemma child_of_wf h (p c : ref) :
  heap_wf h -> child_of h p c -> (p < c < length h)%nat.
Proof.
  intros Hwf (nd & Hp & Hc).
  pose proof (Hwf _ _ Hp) as Hall. rewrite Forall_forall in Hall.
  by apply Hall.
Qed.

Lemma exec_leaf_nodes (st st' : heap * Tree) (c : call) :
  exec st c = Some st' ->
  Forall (fun x => exists p, child_of st.1 p x) (leaf_nodes st.2) ->
  Forall (fun x => exists p, child_of st'.1 p x) (leaf_nodes st'.2).
Proof.
  intros Hc Hleaf. destruct (exec_grow _ _ _ Hc) as [Hgrow _].
  assert (Hold : Forall (fun x => exists p, child_of st'.1 p x)
                        (leaf_nodes st.2)).
  { eapply Forall_impl; [exact Hleaf|]. intros x [p Hx].
    exists p. by eapply child_of_grow. }
  destruct st as [h t], st' as [h' t'], c as [parent dataset|node];
    simpl in *.
  - destruct (add_nodes_inv _ _ _ _ _ _ Hc)
      as (nd & Hp & -> & _ & _ & _ & Hq).
    assert (Hnew : Forall
              (fun x => exists p,
                 child_of (heap_after_add h parent nd (normalize dataset)) p x)
              (children_after h nd (normalize dataset))).
    { apply Forall_forall. intros x Hx. exists parent.
      eexists. split; [by apply heap_after_add_self|]. exact Hx. }
    destruct Hq as [-> | ->]; apply Forall_app; split; try done.
    by apply Forall_rev.
  - destruct (delete h node); [|discriminate]. by injection Hc as <- <-.
Qed.

(** X17.  In a tree built by calls on its nodes from a single fresh root,
    whatever data the root holds, and an empty deque, every entry of
    [leaf_nodes] is a node of the store that is a child of some node;
    the root is never in [leaf_nodes]. *)
Theorem leaf_nodes_hold_children (cs : list call) (d : NodeDataType)
    t h' t' :
  root t = 0%nat ->
  leaf_nodes t = [] ->
  exec_all (fresh_root d, t) cs = Some (h', t') ->
  Forall (fun x => x <> root t' /\ is_Some (h' !! x) /\
                   exists p, child_of h' p x)
         (leaf_nodes t').
Proof.
  intros Hroot Hnil Hrun.
  destruct (exec_all_wf cs (fresh_root d, t) (h', t') (fresh_root_wf d) Hrun)
    as (Hwf & _ & Hr). simpl in *.
  assert (Hleaf : Forall (fun x => exists p, child_of h' p x) (leaf_nodes t')).
  { assert (Hstart : Forall (fun x => exists p, child_of (fresh_root d) p x)
                            (leaf_nodes t)) by (rewrite Hnil; constructor).
    clear Hwf Hr Hnil Hroot. revert Hrun Hstart.
    generalize (fresh_root d) as h. revert t.
    induction cs as [|c cs IH]; intros t h Hrun Hstart.
    - by injection Hrun as <- <-.
    - simpl in Hrun. destruct (exec (h, t) c) as [[h1 t1]|] eqn:Hc;
        [|discriminate].
      simpl in Hrun. eapply IH; [exact Hrun|].
      exact (exec_leaf_nodes _ _ _ Hc Hstart). }
  eapply Forall_impl; [exact Hleaf|]. intros x [p Hx].
  pose proof (child_of_wf _ _ _ Hwf Hx) as Hlt.
  split; [rewrite Hr, Hroot; lia|].
  split; [apply lookup_lt_is_Some_2; lia | by exists p].
Qed.

Lemma leaf_nodes_hold_children_witness :
  exists h' t',
    exec_all (fresh_root (DocData sample_doc), sample_tree) sample_calls
      = Some (h', t') /\
    leaf_nodes t' = [3; 2; 1]%nat /\
    Forall (fun x => x <> root t' /\ is_Some (h' !! x) /\
                     exists p, child_of h' p x)
           (leaf_nodes t').
Proof.
  eexists _, _. split; [reflexivity|]. split; [reflexivity|].
  exact (leaf_nodes_hold_children sample_calls (DocData sample_doc)
           sample_tree _ _ eq_refl eq_refl eq_refl).
Defined.

Lemma heap_after_add_lookup_new h parent pn items n nd' :
  h !! parent = Some pn ->
  (length h <= n)%nat ->
  heap_after_add h parent pn items !! n = Some nd' ->
  exists d, items !! (n - length h)%nat = Some d /\ nd' = Node_init d parent.
Proof.
  intros Hp Hge Hn. pose proof (lookup_lt_Some _ _ _ Hp) as Hlt.
  unfold heap_after_add in Hn.
  rewrite list_lookup_insert_ne in Hn by lia.
  rewrite lookup_app_r in Hn by lia.
  rewrite list_lookup_fmap in Hn.
  destruct (items !! (n - length h)%nat) as [d|]; [|discriminate].
  injection Hn as <-. by exists d.
Qed.

Lemma fresh_elem_of h (k n : nat) :
  n ∈ fresh h k <-> (length h <= n < length h + k)%nat.
Proof. apply elem_of_seq. Qed.

Lemma heap_after_add_linked h (p : ref) pn items :
  heap_wf h -> linked h ->
  h !! p = Some pn ->
  linked (heap_after_add h p pn items).
Proof.
  intros Hwf Hlinked Hp.
  pose proof (heap_after_add_grow h p pn items Hp) as Hgrow.
  pose proof (heap_after_add_self h p pn items Hp) as Hself.
  pose proof (lookup_lt_Some _ _ _ Hp) as Hplt.
  assert (Hold : forall n nd,
            h !! n = Some nd ->
            (forall q, parent nd = Some q ->
               child_of (heap_after_add h p pn items) q n) /\
            (forall c, c ∈ child_nodes nd ->
               exists cn, heap_after_add h p pn items !! c = Some cn /\
                          parent cn = Some n)).
  { intros n nd Hn. destruct (Hlinked _ _ Hn) as (Hpar & Hch & _). split.
    - intros q Hq. eapply child_of_grow; [exact Hgrow | by apply Hpar].
    - intros c Hc. destruct (Hch c Hc) as (cn & Hcn & Hcp).
      destruct (heap_after_add_kept h p pn items c cn Hp Hcn)
        as (cn' & Hcn' & _ & Hpk & _).
      exists cn'. split; [exact Hcn' | congruence]. }
  intros n nd' Hn'. destruct (decide (n = p)) as [->|Hne].
  - rewrite Hself in Hn'. injection Hn' as <-. simpl.
    destruct (Hold _ _ Hp) as [Hpar Hch].
    destruct (Hlinked _ _ Hp) as (_ & _ & Hnd).
    split; [exact Hpar|]. split.
    + intros c Hc. apply elem_of_app in Hc as [Hc|Hc]; [by apply Hch|].
      apply fresh_elem_of in Hc.
      destruct (lookup_lt_is_Some_2 items (c - length h)%nat) as [d Hd];
        [lia|].
      exists (Node_init d p). split; [|reflexivity].
      replace c with (length h + (c - length h))%nat at 1 by lia.
      by apply heap_after_add_new.
    + apply NoDup_app. split; [exact Hnd|]. split; [|apply NoDup_seq].
      intros x Hx Hfresh. apply fresh_elem_of in Hfresh.
      pose proof (Hwf _ _ Hp) as Hall. rewrite Forall_forall in Hall.
      specialize (Hall x Hx). lia.
  - destruct (decide (n < length h)%nat) as [Hlt|Hge].
    + rewrite heap_after_add_old in Hn' by done.
      destruct (Hold _ _ Hn') as [Hpar Hch].
      destruct (Hlinked _ _ Hn') as (_ & _ & Hnd). done.
    + destruct (heap_after_add_lookup_new h p pn items n nd' Hp)
        as (d & Hd & ->); [lia | exact Hn' |].
      simpl. split; [|split; [by intros c ?%elem_of_nil | constructor]].
      intros q [= <-]. eexists. split; [exact Hself|]. simpl.
      apply elem_of_app. right. apply fresh_elem_of.
      apply lookup_lt_Some in Hd. lia.
Qed.

Lemma delete_linked h m h' :
  linked h -> delete h m = Some h' -> linked h'.
Proof.
  intros Hlinked Hdel.
  assert (Hsame : forall n nd',
            h' !! n = Some nd' ->
            exists nd, h !! n = Some nd /\ parent nd' = parent nd /\
                       child_nodes nd' = child_nodes nd).
  { intros n nd' Hn'. rewrite (delete_lookup _ _ _ n Hdel) in Hn'.
    destruct (decide (n = m)); [|by exists nd'].
    destruct (h !! n) as [nd|]; [|discriminate]. injection Hn' as <-.
    by exists nd. }
  assert (Hback : forall n nd,
            h !! n = Some nd ->
            exists nd', h' !! n = Some nd' /\ parent nd' = parent nd /\
                        child_nodes nd' = child_nodes nd).
  { intros n nd Hn. rewrite (delete_lookup _ _ _ n Hdel), Hn.
    destruct (decide (n = m)); eexists; split; try reflexivity; done. }
  intros n nd' Hn'. destruct (Hsame _ _ Hn') as (nd & Hn & Hpar & Hch).
  destruct (Hlinked _ _ Hn) as (Hp & Hc & Hnd). rewrite Hpar, Hch.
  split; [|split; [|exact Hnd]].
  - intros q Hq. destruct (Hp q Hq) as (qn & Hqn & Hin).
    destruct (Hback _ _ Hqn) as (qn' & Hqn' & _ & Hqch).
    exists qn'. split; [exact Hqn' | by rewrite Hqch].
  - intros c Hin. destruct (Hc c Hin) as (cn & Hcn & Hcp).
    destruct (Hback _ _ Hcn) as (cn' & Hcn' & Hcp' & _).
    exists cn'. split; [exact Hcn' | congruence].
Qed.

Lemma exec_linked (st st' : heap * Tree) (c : call) :
  heap_wf st.1 -> linked st.1 ->
  exec st c = Some st' ->
  linked st'.1.
Proof.
  destruct st as [h t], st' as [h' t'], c as [p dataset|node]; simpl.
  - intros Hwf Hlinked Hadd.
    destruct (add_nodes_inv _ _ _ _ _ _ Hadd) as (nd & Hp & -> & _).
    by apply heap_after_add_linked.
  - intros _ Hlinked Hdel.
    destruct (delete h node) as [h1|] eqn:Hd; [|discriminate].
    injection Hdel as <- <-. by eapply delete_linked.
Qed.

Lemma fresh_root_linked (d : NodeDataType) : linked (fresh_root d).
Proof.
  intros n nd Hn. destruct n as [|n]; [|discriminate].
  injection Hn as <-. simpl.
  split; [done|]. split; [by intros c ?%elem_of_nil | constructor].
Qed.

Lemma exec_parent_None (st st' : heap * Tree) (c : call) n nd' :
  exec st c = Some st' ->
  st'.1 !! n = Some nd' ->
  parent nd' = None ->
  exists nd, st.1 !! n = Some nd /\ parent nd = None.
Proof.
  destruct st as [h t], st' as [h' t'], c as [p dataset|node]; simpl.
  - intros Hadd Hn' Hnone.
    destruct (add_nodes_inv _ _ _ _ _ _ Hadd) as (pn & Hp & -> & _).
    destruct (decide (n < length h)%nat) as [Hlt|Hge].
    + destruct (lookup_lt_is_Some_2 h n Hlt) as [nd Hn].
      destruct (heap_after_add_kept h p pn (normalize dataset) n nd Hp Hn)
        as (nd0 & Hn0 & _ & Hpk & _).
      rewrite Hn' in Hn0. injection Hn0 as <-.
      exists nd. split; [exact Hn | congruence].
    + destruct (heap_after_add_lookup_new h p pn (normalize dataset) n nd' Hp)
        as (d & _ & ->); [lia | exact Hn' | discriminate].
  - intros Hdel Hn' Hnone.
    destruct (delete h node) as [h1|] eqn:Hd; [|discriminate].
    injection Hdel as <- <-. rewrite (delete_lookup _ _ _ n Hd) in Hn'.
    destruct (decide (n = node)); [|by exists nd'].
    destruct (h !! n) as [nd|]; [|discriminate]. injection Hn' as <-.
    by exists nd.
Qed.

(** X18.  In a tree built by calls on its nodes from a single fresh root,
    whatever data the root holds, the field [parent] and the lists of
    children agree: a node with a parent is
    among the children of that parent; every child of a node has that
    node as its parent; no node is twice in a list of children; and the
    root is the one node without a parent. *)
Theorem parents_and_children_agree (cs : list call) (d : NodeDataType)
    t h' t' n nd :
  exec_all (fresh_root d, t) cs = Some (h', t') ->
  h' !! n = Some nd ->
  (forall p, parent nd = Some p -> child_of h' p n) /\
  (forall c, c ∈ child_nodes nd ->
     exists cn, h' !! c = Some cn /\ parent cn = Some n) /\
  NoDup (child_nodes nd) /\
  (parent nd = None <-> n = 0%nat).
Proof.
  intros Hrun Hn.
  assert (Hinv : linked h' /\
                 forall m md, h' !! m = Some md -> parent md = None ->
                              m = 0%nat).
  { assert (Hstart : heap_wf (fresh_root d) /\ linked (fresh_root d) /\
              forall m md, fresh_root d !! m = Some md -> parent md = None ->
                           m = 0%nat).
    { split; [apply fresh_root_wf|]. split; [apply fresh_root_linked|].
      intros [|m] md Hm _; [reflexivity | discriminate]. }
    clear Hn. revert Hrun Hstart. generalize (fresh_root d) as h. revert t.
    induction cs as [|c cs IH]; intros t h Hrun (Hwf & Hl & Hroot).
    - injection Hrun as <- <-. by split.
    - simpl in Hrun. destruct (exec (h, t) c) as [[h1 t1]|] eqn:Hc;
        [|discriminate].
      simpl in Hrun. eapply IH; [exact Hrun|].
      split; [exact (proj1 (exec_wf (h, t) (h1, t1) c Hwf Hc))|].
      split; [exact (exec_linked (h, t) (h1, t1) c Hwf Hl Hc)|].
      intros m md Hm Hnone.
      destruct (exec_parent_None (h, t) (h1, t1) c m md Hc Hm Hnone)
        as (md0 & Hm0 & Hn0).
      by eapply Hroot. }
  destruct Hinv as [Hlinked Hroot].
  destruct (Hlinked _ _ Hn) as (Hp & Hc & Hnd).
  split; [exact Hp|]. split; [exact Hc|]. split; [exact Hnd|].
  split; [by apply Hroot|]. intros ->.
  destruct (exec_all_node_kept cs (fresh_root d, t) (h', t') 0
              (mkNode d None [] false) Hrun eq_refl)
    as (nd0 & Hn0 & _ & Hpar & _).
  simpl in Hn0. rewrite Hn in Hn0. injection Hn0 as <-. exact Hpar.
Qed.

Lemma parents_and_children_agree_witness :
  exists h' t' nd,
    exec_all (fresh_root (DocData sample_doc), sample_tree) sample_calls
      = Some (h', t') /\
    h' !! 3%nat = Some nd /\
    (forall p, parent nd = Some p -> child_of h' p 3) /\
    (forall c, c ∈ child_nodes nd ->
       exists cn, h' !! c = Some cn /\ parent cn = Some 3%nat) /\
    NoDup (child_nodes nd) /\
    (parent nd = None <-> 3%nat = 0%nat).
Proof.
  eexists _, _, _. split; [reflexivity|]. split; [reflexivity|].
  exact (parents_and_children_agree sample_calls (DocData sample_doc)
           sample_tree _ _ 3 _ eq_refl eq_refl).
Defined.

(** ** Trees built from a single root: every node once *)

Lemma concat_singletons (l : list ref) : concat ((fun c => [c]) <$> l) = l.
Proof.
  induction l as [|x l IH]; [reflexivity|]. rewrite fmap_cons.
  change (x :: concat ((fun c => [c]) <$> l) = x :: l). by rewrite IH.
Qed.

Lemma concat_new_under (p : ref) (new : list ref) (subs' subs : list (list ref)) :
  Forall2 (fun s' s => s' ≡ₚ s ++ (s ≫= new_under p new)) subs' subs ->
  concat subs' ≡ₚ concat subs ++ (concat subs ≫= new_under p new).
Proof.
  induction 1 as [|s' s subs' subs Hs _ IH]; [reflexivity|].
  simpl. rewrite bind_app, Hs, IH.
  rewrite <- !app_assoc. apply Permutation_app_head.
  rewrite !app_assoc. apply Permutation_app_tail, Permutation_app_comm.
Qed.

Lemma new_under_same (p : ref) (new : list ref) : new_under p new p = new.
Proof. unfold new_under. by rewrite decide_True. Qed.

Lemma new_under_other (p : ref) (new : list ref) (x : ref) :
  x <> p -> new_under p new x = [].
Proof. intros Hne. unfold new_under. by rewrite decide_False. Qed.

Lemma seq_new_under (p : ref) (new : list ref) (a k : nat) :
  seq a k ≫= new_under p new
  = if decide (a <= p < a + k)%nat then new else [].
Proof.
  revert a. induction k as [|k IH]; intros a.
  - simpl. by rewrite decide_False by lia.
  - simpl seq. rewrite bind_cons, IH. unfold new_under.
    repeat case_decide; try lia; by rewrite ?app_nil_r.
Qed.

Lemma all_nodes_new_leaf (fuel : nat) h n d (p : ref) :
  h !! n = Some (Node_init d p) ->
  all_nodes (S fuel) h n = Some [n].
Proof. intros Hn. rewrite all_nodes_step, Hn. reflexivity. Qed.

(** The traversal after [p.add_child_nodes(items)]: the nodes of the
    traversal before, and the new nodes once for every time that [p] was
    met. *)
Lemma all_nodes_after_add (fuel : nat) h (p : ref) pn items n
    (l : list ref) :
  heap_wf h ->
  h !! p = Some pn ->
  all_nodes fuel h n = Some l ->
  exists l',
    all_nodes (S fuel) (heap_after_add h p pn items) n = Some l' /\
    l' ≡ₚ l ++ (l ≫= new_under p (fresh h (length items))).
Proof.
  intros Hwf Hp. revert n l.
  induction fuel as [|fuel IH]; intros n l Hret; [discriminate|].
  destruct (all_nodes_is_node _ _ _ _ Hret) as [nd Hn].
  destruct (all_nodes_child_results _ _ _ _ _ Hret Hn) as (subs & Hsubs & ->).
  pose proof (lookup_lt_Some _ _ _ Hn) as Hnlt.
  assert (Hsubs' : exists subs',
            Forall2 (fun c sub' =>
                       all_nodes (S fuel) (heap_after_add h p pn items) c
                       = Some sub')
                    (child_nodes nd) subs' /\
            Forall2 (fun s' s =>
                       s' ≡ₚ s ++ (s ≫= new_under p (fresh h (length items))))
                    subs' subs).
  { clear Hret Hn. induction Hsubs as [|c sub cs subs Hc _ IHs].
    - exists []. split; constructor.
    - destruct IHs as (subs' & Hq & Hr).
      destruct (IH _ _ Hc) as (sub' & Hsub' & Hperm).
      exists (sub' :: subs'). split; by constructor. }
  destruct Hsubs' as (subs' & Hq & Hr).
  pose proof (concat_new_under _ _ _ _ Hr) as Hperm.
  rewrite all_nodes_step. destruct (decide (n = p)) as [->|Hne].
  - rewrite Hp in Hn. injection Hn as <-.
    rewrite (heap_after_add_self _ _ _ _ Hp).
    cbn [mbind option_bind child_nodes with_child_nodes].
    assert (Hm : mapM (all_nodes (S fuel) (heap_after_add h p pn items))
                      (child_nodes pn ++ fresh h (length items))
                 = Some (subs' ++ ((fun c => [c]) <$> fresh h (length items)))).
    { apply mapM_Some. apply Forall2_app; [exact Hq|].
      apply Forall2_fmap_r, Forall_Forall2_diag, Forall_forall.
      intros c Hc. apply fresh_elem_of in Hc.
      destruct (lookup_lt_is_Some_2 items (c - length h)%nat) as [d Hd];
        [lia|].
      apply (all_nodes_new_leaf _ _ _ d p).
      replace c with (length h + (c - length h))%nat at 1 by lia.
      by apply heap_after_add_new. }
    rewrite Hm. cbn [mbind option_bind]. eexists. split; [reflexivity|].
    rewrite concat_app, concat_singletons, Hperm.
    rewrite bind_cons, new_under_same.
    apply Permutation_skip. rewrite <- !app_assoc.
    apply Permutation_app_head, Permutation_app_comm.
  - rewrite heap_after_add_old by done. rewrite Hn.
    cbn [mbind option_bind].
    apply mapM_Some in Hq. rewrite Hq. cbn [mbind option_bind].
    eexists. split; [reflexivity|].
    rewrite bind_cons, new_under_other by done.
    cbn [app]. apply Permutation_skip. exact Hperm.
Qed.

Lemma exec_every_node_once (st st' : heap * Tree) (c : call)
    (nodes : list ref) :
  heap_wf st.1 ->
  all_nodes_returns st.1 0 nodes ->
  nodes ≡ₚ seq 0 (length st.1) ->
  exec st c = Some st' ->
  exists nodes',
    all_nodes_returns st'.1 0 nodes' /\ nodes' ≡ₚ seq 0 (length st'.1).
Proof.
  destruct st as [h t], st' as [h' t'], c as [p dataset|node]; simpl.
  - intros Hwf [fuel Hret] Hperm Hadd.
    destruct (add_nodes_inv _ _ _ _ _ _ Hadd) as (pn & Hp & -> & _).
    destruct (all_nodes_after_add fuel h p pn (normalize dataset) 0 nodes
                Hwf Hp Hret) as (l' & Hret' & Hperm').
    exists l'. split; [by exists (S fuel)|].
    rewrite Hperm', Hperm, seq_new_under, heap_after_add_length.
    apply lookup_lt_Some in Hp.
    rewrite decide_True by lia. by rewrite seq_app.
  - intros _ [fuel Hret] Hperm Hdel.
    destruct (delete h node) as [h1|] eqn:Hd; [|discriminate].
    injection Hdel as <- <-. exists nodes. split.
    + exists fuel. by rewrite (all_nodes_delete _ _ _ _ _ Hd).
    + by rewrite (delete_length _ _ _ Hd).
Qed.

Lemma exec_all_every_node_once (cs : list call) (st st' : heap * Tree)
    (nodes : list ref) :
  heap_wf st.1 ->
  all_nodes_returns st.1 0 nodes ->
  nodes ≡ₚ seq 0 (length st.1) ->
  exec_all st cs = Some st' ->
  exists nodes',
    all_nodes_returns st'.1 0 nodes' /\ nodes' ≡ₚ seq 0 (length st'.1).
Proof.
  revert st nodes. induction cs as [|c cs IH]; intros st nodes Hwf Hret Hperm Hrun.
  - injection Hrun as <-. by exists nodes.
  - simpl in Hrun. destruct (exec st c) as [st1|] eqn:Hc; [|discriminate].
    simpl in Hrun.
    destruct (exec_every_node_once _ _ _ _ Hwf Hret Hperm Hc)
      as (nodes1 & Hret1 & Hperm1).
    eapply IH; [exact (proj1 (exec_wf _ _ _ Hwf Hc)) | exact Hret1
               | exact Hperm1 | exact Hrun].
Qed.

Lemma built_tree_every_node_once (cs : list call) (d : NodeDataType)
    t h' t' :
  exec_all (fresh_root d, t) cs = Some (h', t') ->
  exists nodes,
    all_nodes_returns h' 0 nodes /\ nodes ≡ₚ seq 0 (length h').
Proof.
  intros Hrun.
  apply (exec_all_every_node_once cs (fresh_root d, t) (h', t') [0%nat]);
    [apply fresh_root_wf | by exists 1%nat | reflexivity | exact Hrun].
Qed.

(** X19.  In a tree built by calls on its nodes from a single fresh root,
    whatever data the root holds, [Tree.all_nodes] returns, and every
    node of the store is in its result exactly once:
    the result has no node twice, and it holds the root and every node
    that a call has made. *)
Theorem tree_all_nodes_each_once (cs : list call) (d : NodeDataType)
    t h' t' :
  root t = 0%nat ->
  exec_all (fresh_root d, t) cs = Some (h', t') ->
  exists fuel nodes,
    Tree_all_nodes fuel h' t' = Some nodes /\
    NoDup nodes /\
    length nodes = length h' /\
    (forall m, m ∈ nodes <-> is_Some (h' !! m)).
Proof.
  intros Hroot Hrun.
  destruct (built_tree_every_node_once cs d t h' t' Hrun)
    as (nodes & [fuel Hret] & Hperm).
  destruct (exec_all_wf cs (fresh_root d, t) (h', t') (fresh_root_wf d) Hrun)
    as (_ & _ & Hr). simpl in Hr.
  exists fuel, nodes. unfold Tree_all_nodes. rewrite Hr, Hroot.
  split; [exact Hret|].
  split; [rewrite Hperm; apply NoDup_seq|].
  split; [by rewrite Hperm, length_seq|].
  intros m. rewrite Hperm, elem_of_seq, lookup_lt_is_Some. lia.
Qed.

Lemma tree_all_nodes_each_once_witness :
  exists h' t' fuel nodes,
    exec_all (fresh_root (DocData sample_doc), sample_tree) sample_calls
      = Some (h', t') /\
    Tree_all_nodes fuel h' t' = Some nodes /\
    NoDup nodes /\
    length nodes = length h' /\
    (forall m, m ∈ nodes <-> is_Some (h' !! m)).
Proof.
  destruct (tree_all_nodes_each_once sample_calls (DocData sample_doc)
              sample_tree _ _ eq_refl eq_refl)
    as (fuel & nodes & H).
  eexists _, _, fuel, nodes. split; [reflexivity | exact H].
Defined.

(** ** Trees built from a single root: the documents and their count *)

Lemma filter_on (P Q : ref -> Prop) `{!forall x, Decision (P x)}
    `{!forall x, Decision (Q x)} (l : list ref) :
  (forall x, x ∈ l -> P x <-> Q x) -> filter P l = filter Q l.
Proof.
  induction l as [|x l IH]; intros Hiff; [reflexivity|].
  rewrite !filter_cons.
  rewrite IH by (intros y Hy; apply Hiff; by apply list_elem_of_further).
  pose proof (Hiff x (list_elem_of_here _ _)) as Hx.
  repeat case_decide; tauto.
Qed.

Lemma filter_length_le (P Q : ref -> Prop) `{!forall x, Decision (P x)}
    `{!forall x, Decision (Q x)} (l : list ref) :
  (forall x, P x -> Q x) ->
  (length (filter P l) <= length (filter Q l))%nat.
Proof.
  intros Himp. induction l as [|x l IH]; [reflexivity|].
  rewrite !filter_cons. repeat case_decide; simpl; try lia.
  exfalso. auto.
Qed.

Lemma live_document_eq nd :
  live_document nd = isinstance_Document (data nd) && negb (deleted nd).
Proof.
  unfold live_document, node_type.
  by destruct (isinstance_Document (data nd)).
Qed.

Lemma live_is_document h n :
  live_document_at h n = true -> document_at h n = true.
Proof.
  unfold live_document_at, document_at.
  destruct (h !! n) as [nd|]; [|done].
  rewrite live_document_eq. by intros [? _]%andb_prop.
Qed.

Lemma fresh_documents h (rs : list ref) items :
  Forall2 (data_at h) rs items ->
  length (filter (fun n => document_at h n = true) rs)
  = length (documents_of items).
Proof.
  induction 1 as [|r d rs items (nd & Hr & Hd) _ IH]; [reflexivity|].
  assert (Hdoc : document_at h r = isinstance_Document d)
    by (unfold document_at; by rewrite Hr, Hd).
  destruct d as [doc|q]; simpl in *.
  - rewrite filter_cons_True by done. simpl. by rewrite IH.
  - rewrite filter_cons_False by (rewrite Hdoc; done). exact IH.
Qed.

Lemma heap_after_add_document_at h (p : ref) pn items n :
  h !! p = Some pn ->
  (n < length h)%nat ->
  document_at (heap_after_add h p pn items) n = document_at h n.
Proof.
  intros Hp Hlt. unfold document_at.
  destruct (lookup_lt_is_Some_2 h n Hlt) as [nd Hn].
  destruct (heap_after_add_kept h p pn items n nd Hp Hn)
    as (nd' & Hn' & Hd & _).
  by rewrite Hn, Hn', Hd.
Qed.

Lemma heap_after_add_document_nodes h (p : ref) pn items :
  h !! p = Some pn ->
  length (document_nodes (heap_after_add h p pn items))
  = (length (document_nodes h) + length (documents_of items))%nat.
Proof.
  intros Hp. unfold document_nodes.
  rewrite heap_after_add_length, seq_app, filter_app, length_app.
  f_equal.
  - f_equal. apply filter_on. intros n Hn. apply elem_of_seq in Hn.
    rewrite heap_after_add_document_at by (done || lia). done.
  - apply fresh_documents. by apply heap_after_add_data.
Qed.

Lemma delete_document_nodes h m h' :
  delete h m = Some h' -> document_nodes h' = document_nodes h.
Proof.
  intros Hdel. unfold document_nodes. rewrite (delete_length _ _ _ Hdel).
  apply filter_on. intros n _. unfold document_at.
  rewrite (delete_lookup _ _ _ n Hdel).
  destruct (decide (n = m)); [|done]. by destruct (h !! n).
Qed.

Lemma exec_document_nodes (k : Z) (st st' : heap * Tree) (c : call) :
  exec st c = Some st' ->
  doc_node_num st.2 + k = Z.of_nat (length (document_nodes st.1)) ->
  doc_node_num st'.2 + k = Z.of_nat (length (document_nodes st'.1)).
Proof.
  destruct st as [h t], st' as [h' t'], c as [p dataset|node]; simpl.
  - intros Hadd Hnum.
    destruct (add_nodes_inv _ _ _ _ _ _ Hadd) as (pn & Hp & -> & Hn & _).
    rewrite (heap_after_add_document_nodes _ _ _ _ Hp).
    rewrite documents_of_normalize. lia.
  - intros Hdel Hnum. destruct (delete h node) as [h1|] eqn:Hd; [|discriminate].
    injection Hdel as <- <-. by rewrite (delete_document_nodes _ _ _ Hd).
Qed.

Lemma exec_none_deleted (st st' : heap * Tree) (c : call) :
  ~ is_delete c ->
  exec st c = Some st' ->
  Forall (fun nd => deleted nd = false) st.1 ->
  Forall (fun nd => deleted nd = false) st'.1.
Proof.
  destruct st as [h t], st' as [h' t'], c as [p dataset|node]; simpl;
    [|by intros []].
  intros _ Hadd Hall.
  destruct (add_nodes_inv _ _ _ _ _ _ Hadd) as (pn & Hp & -> & _).
  unfold heap_after_add. apply Forall_insert.
  - apply Forall_app. split; [exact Hall|].
    apply Forall_fmap, Forall_forall. by intros d _.
  - simpl. rewrite Forall_forall in Hall. apply Hall.
    by eapply list_elem_of_lookup_2.
Qed.

Lemma document_nodes_split h (l : list ref) :
  length (filter (fun n => document_at h n = true) l)
  = (length (filter (fun n => visible_document h n = true) l)
     + length (filter (fun n => deleted_document h n = true) l))%nat.
Proof.
  induction l as [|r l IH]; [reflexivity|].
  assert (Hcase :
    (document_at h r = true /\ visible_document h r = true /\
     deleted_document h r = false) \/
    (document_at h r = true /\ visible_document h r = false /\
     deleted_document h r = true) \/
    (document_at h r = false /\ visible_document h r = false /\
     deleted_document h r = false)).
  { unfold document_at, visible_document, deleted_document.
    destruct (h !! r) as [[[d|q] p cs [|]]|]; simpl; auto. }
  destruct Hcase as [(Hd & Hv & Hx)|[(Hd & Hv & Hx)|(Hd & Hv & Hx)]].
  - rewrite (filter_cons_True (fun n => document_at h n = true) r l Hd).
    rewrite (filter_cons_True (fun n => visible_document h n = true) r l Hv).
    rewrite (filter_cons_False (fun n => deleted_document h n = true) r l)
      by congruence.
    simpl. lia.
  - rewrite (filter_cons_True (fun n => document_at h n = true) r l Hd).
    rewrite (filter_cons_True (fun n => deleted_document h n = true) r l Hx).
    rewrite (filter_cons_False (fun n => visible_document h n = true) r l)
      by congruence.
    simpl. lia.
  - rewrite (filter_cons_False (fun n => document_at h n = true) r l)
      by congruence.
    rewrite (filter_cons_False (fun n => visible_document h n = true) r l)
      by congruence.
    rewrite (filter_cons_False (fun n => deleted_document h n = true) r l)
      by congruence.
    exact IH.
Qed.

Lemma none_deleted_documents h (l : list ref) :
  Forall (fun nd => deleted nd = false) h ->
  filter (fun n => deleted_document h n = true) l = [].
Proof.
  intros Hall. induction l as [|r l IH]; [reflexivity|].
  rewrite filter_cons_False; [exact IH|].
  unfold deleted_document. destruct (h !! r) as [nd|] eqn:Hr; [|done].
  rewrite Forall_forall in Hall.
  pose proof (Hall nd (list_elem_of_lookup_2 _ _ _ Hr)) as Hnd.
  destruct nd as [[d|q] p cs del]; simpl in *; [|done]. by subst del.
Qed.

Lemma exec_all_document_nodes (k : Z) (cs : list call)
    (st st' : heap * Tree) :
  exec_all st cs = Some st' ->
  doc_node_num st.2 + k = Z.of_nat (length (document_nodes st.1)) ->
  doc_node_num st'.2 + k = Z.of_nat (length (document_nodes st'.1)).
Proof.
  revert st. induction cs as [|c cs IH]; intros st Hrun Hstart.
  - by injection Hrun as <-.
  - simpl in Hrun. destruct (exec st c) as [st1|] eqn:Hc; [|discriminate].
    simpl in Hrun. eapply IH; [exact Hrun|].
    exact (exec_document_nodes k st st1 c Hc Hstart).
Qed.

Lemma exec_all_none_deleted (cs : list call) (st st' : heap * Tree) :
  Forall (fun c => ~ is_delete c) cs ->
  exec_all st cs = Some st' ->
  Forall (fun nd => deleted nd = false) st.1 ->
  Forall (fun nd => deleted nd = false) st'.1.
Proof.
  revert st. induction cs as [|c cs IH]; intros st Hcalls Hrun Hstart.
  - by injection Hrun as <-.
  - simpl in Hrun. destruct (exec st c) as [st1|] eqn:Hc; [|discriminate].
    simpl in Hrun. apply Forall_cons in Hcalls as [Hc1 Hcalls].
    eapply IH; [exact Hcalls | exact Hrun|].
    exact (exec_none_deleted st st1 c Hc1 Hc Hstart).
Qed.

(** X20.  Take a tree made by the constructor on a fresh root, and calls
    of [add_nodes] and [delete] that are made on nodes of the tree.  Then
    [Tree.all_documents] returns, and the number of items that it returns
    and the number of deleted Document nodes add up to [doc_node_num],
    plus one when the root itself holds a Document, which no counter
    counts.  So over a root that holds a query it returns at most
    [doc_node_num] items, and exactly [doc_node_num] items when no call
    was a [delete]. *)
Theorem tree_all_documents_count (cs : list call)
    (encoding_for_model : string -> Encoding) (model : string)
    (d : NodeDataType) h' t' :
  exec_all (fresh_root d, Tree_init encoding_for_model 0 model) cs
    = Some (h', t') ->
  exists fuel docs,
    Tree_all_documents fuel h' t' = Some docs /\
    Z.of_nat (length docs) + Z.of_nat (length (deleted_documents h'))
      = doc_node_num t' + match d with DocData _ => 1 | QueryData _ => 0 end /\
    (forall q, d = QueryData q ->
       Z.of_nat (length docs) <= doc_node_num t') /\
    (forall q, d = QueryData q ->
       Forall (fun c => ~ is_delete c) cs ->
       Z.of_nat (length docs) = doc_node_num t').
Proof.
  intros Hrun.
  destruct (built_tree_every_node_once cs _ _ h' t' Hrun)
    as (nodes & [fuel Hret] & Hperm).
  destruct (exec_all_wf cs
              (fresh_root d, Tree_init encoding_for_model 0 model)
              (h', t') (fresh_root_wf _) Hrun) as (_ & _ & Hr). simpl in Hr.
  assert (Hnum : doc_node_num t'
                 + match d with DocData _ => 1 | QueryData _ => 0 end
                 = Z.of_nat (length (document_nodes h'))).
  { apply (exec_all_document_nodes _ cs
             (fresh_root d, Tree_init encoding_for_model 0 model)
             (h', t') Hrun).
    by destruct d. }
  assert (Hlen : length (select_documents h' nodes)
                 = length (filter (fun r => visible_document h' r = true)
                                  (seq 0 (length h')))).
  { rewrite <- (Forall2_length _ _ _ (select_documents_visible h' nodes)).
    by rewrite Hperm. }
  assert (Hsplit : Z.of_nat (length (select_documents h' nodes))
                   + Z.of_nat (length (deleted_documents h'))
                   = doc_node_num t'
                     + match d with DocData _ => 1 | QueryData _ => 0 end).
  { rewrite Hnum, Hlen. unfold document_nodes, deleted_documents.
    rewrite document_nodes_split. lia. }
  exists fuel, (select_documents h' nodes).
  split.
  { unfold Tree_all_documents, all_documents. by rewrite Hr, Hret. }
  split; [exact Hsplit|]. split; [intros q ->; lia|].
  intros q -> Hcalls.
  assert (Hall : Forall (fun nd => deleted nd = false) h').
  { apply (exec_all_none_deleted cs
             (fresh_root (QueryData q), Tree_init encoding_for_model 0 model)
             (h', t') Hcalls Hrun).
    repeat constructor. }
  unfold deleted_documents in Hsplit.
  rewrite (none_deleted_documents h' _ Hall) in Hsplit. simpl in Hsplit. lia.
Qed.

(** Three Documents passed and no deletion: three items are returned. *)
Lemma tree_all_documents_count_witness :
  exists h' t' fuel docs,
    exec_all (fresh_root (QueryData "start"),
              Tree_init char_tokens 0 default_model) adding_calls
      = Some (h', t') /\
    Tree_all_documents fuel h' t' = Some docs /\
    doc_node_num t' = 3 /\
    Z.of_nat (length docs) = doc_node_num t'.
Proof.
  destruct (tree_all_documents_count adding_calls char_tokens default_model
              (QueryData "start") _ _ eq_refl)
    as (fuel & docs & Hdocs & _ & _ & Heq).
  eexists _, _, fuel, docs. split; [reflexivity|].
  split; [exact Hdocs|]. split; [reflexivity|].
  apply (Heq "start" eq_refl).
  unfold adding_calls. repeat constructor; by intros [].
Defined.

(** One of two Document nodes deleted, under a root that is a Document
    itself: two items are returned, and the counter says two. *)
Example tree_all_documents_after_delete :
  (st ← exec_all (fresh_root (DocData sample_doc), sample_tree) sample_calls;
   docs ← Tree_all_documents 4 st.1 st.2;
   Some (length docs, length (deleted_documents st.1), doc_node_num st.2))
  = Some (2%nat, 1%nat, 2).
Proof. reflexivity. Qed.

Lemma chars_length (q : string) : length (PyStr.chars q) = String.length q.
Proof. induction q as [|a q IH]; simpl; congruence. Qed.

(** The loop of [add_child_nodes] meets as many items as the argument of
    [add_nodes] holds. *)
Lemma normalize_length (dataset : dataset_arg) :
  length (normalize dataset) = count_items dataset.
Proof.
  destruct dataset as [[d|q]|l]; simpl; [reflexivity| |reflexivity].
  unfold normalize. simpl. by rewrite length_fmap, chars_length.
Qed.

Lemma exec_all_store_size (cs : list call) (st st' : heap * Tree) :
  exec_all st cs = Some st' ->
  length st'.1 = (length st.1 + items_passed cs)%nat.
Proof.
  revert st. induction cs as [|c cs IH]; intros st Hrun.
  - injection Hrun as <-. simpl. lia.
  - simpl in Hrun. destruct (exec st c) as [st1|] eqn:Hc; [|discriminate].
    simpl in Hrun. rewrite (IH _ Hrun).
    destruct st as [h t], st1 as [h1 t1], c as [p dataset|node]; simpl in *.
    + destruct (add_nodes_inv _ _ _ _ _ _ Hc) as (pn & Hp & -> & _).
      rewrite heap_after_add_length, normalize_length. lia.
    + destruct (delete h node) as [h2|] eqn:Hd; [|discriminate].
      injection Hc as <- <-. by rewrite (delete_length _ _ _ Hd).
Qed.

(** X21.  In a tree built by calls on its nodes from a single fresh root,
    whatever data the root holds, [Tree.all_nodes] returns one node for
    the root and one node for every item of the arguments of the calls
    of [add_nodes] (an element of a list, a single Document, a character
    of a single query), whatever was deleted. *)
Theorem tree_all_nodes_count (cs : list call) (d : NodeDataType) t h' t' :
  root t = 0%nat ->
  exec_all (fresh_root d, t) cs = Some (h', t') ->
  exists fuel nodes,
    Tree_all_nodes fuel h' t' = Some nodes /\
    length nodes = (1 + items_passed cs)%nat.
Proof.
  intros Hroot Hrun.
  destruct (built_tree_every_node_once cs d t h' t' Hrun)
    as (nodes & [fuel Hret] & Hperm).
  destruct (exec_all_wf cs (fresh_root d, t) (h', t') (fresh_root_wf d) Hrun)
    as (_ & _ & Hr). simpl in Hr.
  exists fuel, nodes. unfold Tree_all_nodes. rewrite Hr, Hroot.
  split; [exact Hret|].
  rewrite Hperm, length_seq.
  exact (exec_all_store_size cs (fresh_root d, t) (h', t') Hrun).
Qed.

(** Three items, then one, then the two characters of ["ab"]: seven nodes
    with the root. *)
Lemma tree_all_nodes_count_witness :
  exists h' t' fuel nodes,
    exec_all (fresh_root (DocData sample_doc), sample_tree) adding_calls
      = Some (h', t') /\
    Tree_all_nodes fuel h' t' = Some nodes /\
    length nodes = (1 + (3 + (1 + (2 + 0))))%nat.
Proof.
  destruct (tree_all_nodes_count adding_calls (DocData sample_doc)
              sample_tree _ _ eq_refl eq_refl)
    as (fuel & nodes & H).
  eexists _, _, fuel, nodes. split; [reflexivity | exact H].
Defined.
